(** * EdDSA over the BN256 twisted Edwards curve: signatures and encodings

    A shallow embedding of [crypto/signature/eddsa/bn256/eddsa.go]:
    the fixed-width encodings of [PublicKey], [Signature] and
    [PrivateKey], key derivation ([New]), signing ([Sign]) and
    verification ([Verify]).

    The elliptic-curve library ([twistededwards]), the seed-expansion
    hash ([blake2b.Sum512]) and the caller's [hash.Hash] are interfaces
    of the Go program that live outside the package; they are operation
    tables here, and the laws a theorem needs from them are named
    hypotheses of that theorem. *)

From Stdlib Require Import ZArith Lia Bool String.
From Stdlib.Strings Require Byte.
From stdpp Require Import base tactics option list numbers.
From Equations Require Import Equations.

Local Open Scope Z_scope.

(** ** Bytes *)

Abbreviation byte := Byte.byte.

Definition byte_to_Z (b : byte) : Z := Z.of_N (Byte.to_N b).

Definition byte_of_Z (z : Z) : byte :=
  match Byte.of_N (Z.to_N (z mod 256)) with
  | Some b => b
  | None => Byte.x00
  end.

#[global] Instance byte_inhabited : Inhabited byte := populate Byte.x00.

(** [b &= m] and [b |= m] on a [byte]. *)
Definition byte_and (b : byte) (m : Z) : byte := byte_of_Z (Z.land (byte_to_Z b) m).
Definition byte_or (b : byte) (m : Z) : byte := byte_of_Z (Z.lor (byte_to_Z b) m).

(** ** Slices and arrays

    A Go array or slice of bytes is a list; [make n] is the zeroed
    buffer, [slice lo hi buf] is [buf[lo:hi]], and [copy_at off dst src]
    is the array [dst] after [copy(dst[off:], src)]: Go copies
    [min (len dst - off) (len src)] elements. *)

Definition make (n : nat) : list byte := replicate n Byte.x00.

Definition slice {T} (lo hi : nat) (buf : list T) : list T :=
  take (hi - lo) (drop lo buf).

Definition copy_at {T} (off : nat) (dst src : list T) : list T :=
  take off dst ++ take (length dst - off) src ++ drop (off + length src) dst.

(** [copy(dst[:hi], src)] on the array [dst]. *)
Definition copy_upto {T} (hi : nat) (dst src : list T) : list T :=
  copy_at 0 (take hi dst) src ++ drop hi dst.

(** ** [math/big] integers

    A [big.Int] is a [Z].  [SetBytes] reads a big-endian unsigned
    integer; [Bytes] is the big-endian encoding of the absolute value
    without leading zero bytes; [Mod] is the Euclidean modulus. *)

Definition big_SetBytes (buf : list byte) : Z :=
  fold_left (fun acc b => acc * 256 + byte_to_Z b) buf 0.

Fixpoint be_bytes (n : nat) (z : Z) : list byte :=
  match n with
  | O => []
  | S n' => be_bytes n' (z / 256) ++ [byte_of_Z z]
  end.

(** Number of base-256 digits of a non-negative integer. *)
Definition byte_len (z : Z) : nat :=
  if z <=? 0 then O else S (Z.to_nat (Z.log2 z / 8)).

Definition big_Bytes (z : Z) : list byte := be_bytes (byte_len (Z.abs z)) (Z.abs z).

Definition big_Mod (x m : Z) : Z := x mod (Z.abs m).

(** ** Errors *)

Inductive error : Type :=
| io_ErrShortBuffer
| errNotOnCurve
| errWrite (reason : string).

(** ** Sizes *)

Definition frSize : nat := 32.
Definition sizePublicKey : nat := 2 * frSize.
Definition sizeSignature : nat := 3 * frSize.
Definition sizePrivateKey : nat := 4 * frSize.

(** ** The consumed interfaces *)

(** [fr.Element]: a field element with its big-endian codec.  [fr_zero]
    is the zero value of the Go struct. *)
Class fr := {
  fr_Element : Type;
  fr_zero : fr_Element;
  fr_SetBytes : list byte -> fr_Element;
  fr_Bytes : fr_Element -> list byte;
  fr_Equal : fr_Element -> fr_Element -> bool;
  fr_ToBigInt : fr_Element -> Z
}.

Record PointAffine `{fr} : Type := mkPoint { X : fr_Element; Y : fr_Element }.
Arguments mkPoint {_} _ _.

(** [twistededwards]: the point operations and the parameters returned
    by [GetEdwardsCurve].  [Add p q] is the receiver after
    [res.Add(&p, &q)], [ScalarMul p k] the receiver after
    [res.ScalarMul(&p, &k)]. *)
Class twistededwards `{fr} := {
  IsOnCurve : PointAffine -> bool;
  ScalarMul : PointAffine -> Z -> PointAffine;
  Add : PointAffine -> PointAffine -> PointAffine;
  Base : PointAffine;
  Order : Z;
  Cofactor : fr_Element
}.

(** [blake2b.Sum512], a [[64]byte] digest. *)
Class blake2b := { Sum512 : list byte -> list byte }.

(** [hash.Hash]: a stateful object, here its state and the three
    methods the package calls.  [Hash_Write] returns the new state and
    the error, [Hash_Sum s b] is [b] followed by the digest. *)
Class Hash := {
  Hash_state : Type;
  Hash_Reset : Hash_state -> Hash_state;
  Hash_Write : Hash_state -> list byte -> Hash_state * option error;
  Hash_Sum : Hash_state -> list byte -> list byte
}.

(** ** Data model *)

Record PublicKey `{fr} : Type := mkPublicKey { A : PointAffine }.
Arguments mkPublicKey {_} _.

(** The fields [R] and [S] of the source are [sig_R] and [sig_S] here:
    [S] is the successor of [nat]. *)
Record Signature `{fr} : Type := mkSignature {
  sig_R : PointAffine;
  sig_S : list byte
}.
Arguments mkSignature {_} _ _.

Record PrivateKey `{fr} : Type := mkPrivateKey {
  pubKey : PublicKey;
  scalar : list byte;
  randSrc : list byte
}.
Arguments mkPrivateKey {_} _ _ _.

Section Eddsa.
Context {F : fr} {C : twistededwards} {B : blake2b} {HF : Hash}.

Definition zeroPoint : PointAffine := mkPoint fr_zero fr_zero.

(** The zero values [PublicKey{}], [Signature{}] and [PrivateKey{}]. *)
Definition zeroPublicKey : PublicKey := mkPublicKey zeroPoint.
Definition zeroSignature : Signature := mkSignature zeroPoint (make frSize).
Definition zeroPrivateKey : PrivateKey :=
  mkPrivateKey zeroPublicKey (make frSize) (make 32).

Definition set_X (p : PointAffine) (x : fr_Element) : PointAffine := mkPoint x (Y p).
Definition set_Y (p : PointAffine) (y : fr_Element) : PointAffine := mkPoint (X p) y.

(** ** Encoding layer *)

(** [(pk *PublicKey) SetBytes]: the receiver after the call, the count
    and the error. *)
Definition PublicKey_SetBytes (pk : PublicKey) (buf : list byte)
  : PublicKey * (nat * option error) :=
  let n := 0%nat in
  if (length buf <? sizePublicKey)%nat then (pk, (n, Some io_ErrShortBuffer)) else
  let a := set_X (A pk) (fr_SetBytes (slice 0 frSize buf)) in
  let a := set_Y a (fr_SetBytes (slice frSize (2 * frSize) buf)) in
  let pk := mkPublicKey a in
  let n := (n + 2 * frSize)%nat in
  if negb (IsOnCurve (A pk)) then (pk, (n, Some errNotOnCurve)) else
  (pk, (n, None)).

Definition PublicKey_Bytes (pk : PublicKey) : list byte :=
  let res := make sizePublicKey in
  let x := fr_Bytes (X (A pk)) in
  let y := fr_Bytes (Y (A pk)) in
  let res := copy_at 0 res x in
  let res := copy_at frSize res y in
  res.

Definition Signature_SetBytes (sig : Signature) (buf : list byte)
  : Signature * (nat * option error) :=
  let n := 0%nat in
  if (length buf <? sizeSignature)%nat then (sig, (n, Some io_ErrShortBuffer)) else
  let r := set_X (sig_R sig) (fr_SetBytes (slice 0 frSize buf)) in
  let r := set_Y r (fr_SetBytes (slice frSize (2 * frSize) buf)) in
  let sig := mkSignature r (sig_S sig) in
  let n := (n + 2 * frSize)%nat in
  if negb (IsOnCurve (sig_R sig)) then (sig, (n, Some errNotOnCurve)) else
  let sig := mkSignature (sig_R sig)
               (copy_at 0 (sig_S sig) (slice (2 * frSize) (3 * frSize) buf)) in
  let n := (n + frSize)%nat in
  (sig, (n, None)).

Definition Signature_Bytes (sig : Signature) : list byte :=
  let res := make sizeSignature in
  let x := fr_Bytes (X (sig_R sig)) in
  let y := fr_Bytes (Y (sig_R sig)) in
  let res := copy_upto frSize res x in
  let res := copy_at frSize res y in
  let res := copy_at (2 * frSize) res (sig_S sig) in
  res.

Definition PrivateKey_SetBytes (privKey : PrivateKey) (buf : list byte)
  : PrivateKey * (nat * option error) :=
  let n := 0%nat in
  if (length buf <? sizePrivateKey)%nat then (privKey, (n, Some io_ErrShortBuffer)) else
  let a := set_X (A (pubKey privKey)) (fr_SetBytes (slice 0 frSize buf)) in
  let a := set_Y a (fr_SetBytes (slice frSize (2 * frSize) buf)) in
  let privKey := mkPrivateKey (mkPublicKey a) (scalar privKey) (randSrc privKey) in
  let n := (n + 2 * frSize)%nat in
  if negb (IsOnCurve (A (pubKey privKey))) then (privKey, (n, Some errNotOnCurve)) else
  let privKey := mkPrivateKey (pubKey privKey)
                   (copy_at 0 (scalar privKey) (slice (2 * frSize) (3 * frSize) buf))
                   (randSrc privKey) in
  let privKey := mkPrivateKey (pubKey privKey) (scalar privKey)
                   (copy_at 0 (randSrc privKey) (drop (3 * frSize) buf)) in
  let n := (n + frSize)%nat in
  (privKey, (n, None)).

Definition PrivateKey_Bytes (privKey : PrivateKey) : list byte :=
  let res := make sizePrivateKey in
  let x := fr_Bytes (X (A (pubKey privKey))) in
  let y := fr_Bytes (Y (A (pubKey privKey))) in
  let res := copy_at 0 res x in
  let res := copy_at frSize res y in
  let res := copy_at (2 * frSize) res (scalar privKey) in
  let res := copy_at (3 * frSize) res (randSrc privKey) in
  res.

(** The point whose coordinates are the first two 32-byte blocks of [buf],
    used to state what [SetBytes] stores. *)
Definition decoded_point (buf : list byte) : PointAffine :=
  mkPoint (fr_SetBytes (slice 0 frSize buf)) (fr_SetBytes (slice frSize (2 * frSize) buf)).

(** [Unmarshal] and [Marshal] are the aliases of the source. *)
Definition PublicKey_Unmarshal (pk : PublicKey) (buf : list byte) : PublicKey * option error :=
  let '(pk, (_, err)) := PublicKey_SetBytes pk buf in (pk, err).
Definition PublicKey_Marshal (pk : PublicKey) : list byte := PublicKey_Bytes pk.
Definition Signature_Unmarshal (sig : Signature) (buf : list byte) : Signature * option error :=
  let '(sig, (_, err)) := Signature_SetBytes sig buf in (sig, err).
Definition Signature_Marshal (sig : Signature) : list byte := Signature_Bytes sig.
Definition PrivateKey_Unmarshal (privKey : PrivateKey) (buf : list byte)
  : PrivateKey * option error :=
  let '(privKey, (_, err)) := PrivateKey_SetBytes privKey buf in (privKey, err).
Definition PrivateKey_Marshal (privKey : PrivateKey) : list byte := PrivateKey_Bytes privKey.

(** ** Key derivation *)

(** The byte-reversal loop of [New]:
    [for i, j := 0, 32; i < j; i, j = i+1, j-1 { h[i], h[j] = h[j], h[i] }]. *)
Equations? reverse_loop (i j : nat) (h : list byte) : list byte by wf (j - i)%nat lt :=
  reverse_loop i j h with decide (i < j)%nat := {
    | left _ => reverse_loop (i + 1) (j - 1) (<[j := h !!! i]> (<[i := h !!! j]> h));
    | right _ => h }.
Proof. lia. Qed.

(** The pruning of [New]: [h[0] &= 0xF8; h[31] &= 0x7F; h[31] |= 0x40]. *)
Definition prune (h : list byte) : list byte :=
  let h := <[0%nat := byte_and (h !!! 0%nat) 0xF8]> h in
  let h := <[31%nat := byte_and (h !!! 31%nat) 0x7F]> h in
  let h := <[31%nat := byte_or (h !!! 31%nat) 0x40]> h in
  h.

Definition New (seed : list byte) : PublicKey * PrivateKey :=
  let pub := zeroPublicKey in
  let priv := zeroPrivateKey in
  let h := Sum512 seed in
  let priv := mkPrivateKey (pubKey priv) (scalar priv)
                (foldl (fun rs i => <[i := h !!! (i + 32)%nat]> rs) (randSrc priv) (seq 0 32)) in
  let h := prune h in
  let h := reverse_loop 0 32 h in
  let priv := mkPrivateKey (pubKey priv) (copy_at 0 (scalar priv) (slice 0 32 h))
                (randSrc priv) in
  let bscalar := big_SetBytes (scalar priv) in
  let pub := mkPublicKey (ScalarMul Base bscalar) in
  let priv := mkPrivateKey pub (scalar priv) (randSrc priv) in
  (pub, priv).

(** ** Signing *)

(** The hashed buffer [R.X || R.Y || A.X || A.Y || message], built as the
    source builds it in both [Sign] and [Verify]. *)
Definition dataToHash (r a : PointAffine) (message : list byte) : list byte :=
  let rX := fr_Bytes (X r) in
  let rY := fr_Bytes (Y r) in
  let aX := fr_Bytes (X a) in
  let aY := fr_Bytes (Y a) in
  let sizeDataToHash := (4 * frSize + length message)%nat in
  let data := make sizeDataToHash in
  let data := copy_at 0 data rX in
  let data := copy_at frSize data rY in
  let data := copy_at (2 * frSize) data aX in
  let data := copy_at (3 * frSize) data aY in
  let data := copy_at (4 * frSize) data message in
  data.

(** The nonce [randScalarInt] of [Sign]: the first half of the digest of
    [priv.randSrc || message], read as a big-endian integer. *)
Definition nonce (message : list byte) (priv : PrivateKey) : Z :=
  let randSrc' := make (32 + length message) in
  let randSrc' := foldl (fun buf iv => <[iv.1 := iv.2]> buf) randSrc'
                    (imap pair (randSrc priv)) in
  let randSrc' := copy_at 32 randSrc' message in
  let randBytes := Sum512 randSrc' in
  big_SetBytes (slice 0 32 randBytes).

Definition Sign (message : list byte) (priv : PrivateKey) (hFunc : Hash_state)
  : Hash_state * (Signature * option error) :=
  let res := zeroSignature in
  let randScalarInt := nonce message priv in
  let res := mkSignature (ScalarMul Base randScalarInt) (sig_S res) in
  if negb (IsOnCurve (sig_R res)) then (hFunc, (zeroSignature, Some errNotOnCurve)) else
  let data := dataToHash (sig_R res) (A (pubKey priv)) message in
  let hFunc := Hash_Reset hFunc in
  let '(hFunc, err) := Hash_Write hFunc data in
  match err with
  | Some e => (hFunc, (zeroSignature, Some e))
  | None =>
    let hramBin := Hash_Sum hFunc [] in
    let hramInt := big_SetBytes hramBin in
    let bscalar := big_SetBytes (scalar priv) in
    let bs := big_Mod (hramInt * bscalar + randScalarInt) Order in
    let sb := big_Bytes bs in
    let sb := if (length sb <? frSize)%nat
              then make (frSize - length sb) ++ sb else sb in
    let res := mkSignature (sig_R res) (copy_at 0 (sig_S res) sb) in
    (hFunc, (res, None))
  end.

(** ** Verification *)

Definition Verify (sig : Signature) (message : list byte) (pub : PublicKey)
    (hFunc : Hash_state) : Hash_state * (bool * option error) :=
  if negb (IsOnCurve (A pub)) then (hFunc, (false, Some errNotOnCurve)) else
  let data := dataToHash (sig_R sig) (A pub) message in
  let hFunc := Hash_Reset hFunc in
  let '(hFunc, err) := Hash_Write hFunc data in
  match err with
  | Some e => (hFunc, (false, Some e))
  | None =>
    let hramBin := Hash_Sum hFunc [] in
    let hramInt := big_SetBytes hramBin in
    let bCofactor := fr_ToBigInt Cofactor in
    let bs := big_SetBytes (sig_S sig) in
    let lhs := ScalarMul (ScalarMul Base bs) bCofactor in
    if negb (IsOnCurve lhs) then (hFunc, (false, Some errNotOnCurve)) else
    let rhs := ScalarMul (Add (ScalarMul (A pub) hramInt) (sig_R sig)) bCofactor in
    if negb (IsOnCurve rhs) then (hFunc, (false, Some errNotOnCurve)) else
    if negb (fr_Equal (X lhs) (X rhs)) || negb (fr_Equal (Y lhs) (Y rhs))
    then (hFunc, (false, None))
    else (hFunc, (true, None))
  end.

(** ** Notions used to state the properties *)

(** The challenge integer read from a hash object after the write. *)
Definition hramInt (hFunc : Hash_state) : Z := big_SetBytes (Hash_Sum hFunc []).

(** The fixed-width field [S] holding the integer [bs], as [Sign] builds it. *)
Definition S_bytes (bs : Z) : list byte :=
  let sb := big_Bytes bs in
  let sb := if (length sb <? frSize)%nat then make (frSize - length sb) ++ sb else sb in
  copy_at 0 (make frSize) sb.

(** The byte-order reversal of the pruned first half of the digest, the
    little-endian scalar of RFC 8032 read as big-endian. *)
Definition reversed_pruned_half (seed : list byte) : list byte :=
  reverse (take 32 (prune (Sum512 seed))).

(** The two sides of the verification equation, [Cofactor * (S * Base)]
    and [Cofactor * (H * A + R)]. *)
Definition lhs_point (sig : Signature) : PointAffine :=
  ScalarMul (ScalarMul Base (big_SetBytes (sig_S sig))) (fr_ToBigInt Cofactor).

Definition rhs_point (sig : Signature) (pub : PublicKey) (H : Z) : PointAffine :=
  ScalarMul (Add (ScalarMul (A pub) H) (sig_R sig)) (fr_ToBigInt Cofactor).

(** ** What the package relies on from its interfaces *)

(** [fr.Element.Bytes] returns a [[32]byte] from which [SetBytes] reads
    the element back. *)
Record fr_codec : Prop := {
  fr_Bytes_length : forall x : fr_Element, length (fr_Bytes x) = frSize;
  fr_SetBytes_Bytes : forall x : fr_Element, fr_SetBytes (fr_Bytes x) = x
}.

(** [fr.Element.Equal] decides equality. *)
Definition fr_Equal_spec : Prop :=
  forall x y : fr_Element, fr_Equal x y = true <-> x = y.

(** The curve is closed under the point operations. *)
Record curve_closed : Prop := {
  Base_on_curve : IsOnCurve Base = true;
  ScalarMul_on_curve : forall P k,
    IsOnCurve P = true -> 0 <= k -> IsOnCurve (ScalarMul P k) = true;
  Add_on_curve : forall P Q,
    IsOnCurve P = true -> IsOnCurve Q = true -> IsOnCurve (Add P Q) = true
}.

(** [Base] generates a group in which [Order] acts as zero. *)
Record base_group : Prop := {
  ScalarMul_Base_mul : forall a b, 0 <= a -> 0 <= b ->
    ScalarMul (ScalarMul Base a) b = ScalarMul Base (a * b);
  ScalarMul_Base_add : forall a b, 0 <= a -> 0 <= b ->
    Add (ScalarMul Base a) (ScalarMul Base b) = ScalarMul Base (a + b);
  ScalarMul_Base_Order : forall k, 0 <= k ->
    ScalarMul Base (k mod Order) = ScalarMul Base k
}.

(** The cofactor is a non-negative integer. *)
Definition Cofactor_nonneg : Prop := 0 <= fr_ToBigInt Cofactor.

(** [Base] has order exactly [Order]. *)
Definition Base_exact_order : Prop :=
  forall a b, 0 <= a < Order -> 0 <= b < Order ->
    ScalarMul Base a = ScalarMul Base b -> a = b.

(** The group order is positive and fits [frSize] bytes. *)
Definition Order_fits : Prop := 0 < Order <= 256 ^ Z.of_nat frSize.

(** [blake2b.Sum512] returns a [[64]byte]. *)
Definition Sum512_length : Prop := forall data, length (Sum512 data) = 64%nat.

(** [Reset] puts a [hash.Hash] back into its initial state. *)
Definition Hash_Reset_initial : Prop := forall s s', Hash_Reset s = Hash_Reset s'.

End Eddsa.

(** * BLAKE2b-512

    The unkeyed BLAKE2b hash with a 64-byte digest (RFC 7693), the
    function behind [blake2b.Sum512] of [golang.org/x/crypto].  It is an
    instance of the [blake2b] interface on which [New] and [Sign] run by
    computation; the digests of "abc" and of the seed of the package's
    tests are checked below. *)

Module Blake2b.

Definition w64 (z : Z) : Z := z mod 2 ^ 64.

Definition rotr64 (x n : Z) : Z := Z.lor (Z.shiftr x n) (w64 (Z.shiftl x (64 - n))).

Definition IV : list Z :=
  [0x6a09e667f3bcc908; 0xbb67ae8584caa73b; 0x3c6ef372fe94f82b; 0xa54ff53a5f1d36f1;
   0x510e527fade682d1; 0x9b05688c2b3e6c1f; 0x1f83d9abfb41bd6b; 0x5be0cd19137e2179].

Definition SIGMA : list (list nat) :=
  [[0; 1; 2; 3; 4; 5; 6; 7; 8; 9; 10; 11; 12; 13; 14; 15];
   [14; 10; 4; 8; 9; 15; 13; 6; 1; 12; 0; 2; 11; 7; 5; 3];
   [11; 8; 12; 0; 5; 2; 15; 13; 10; 14; 3; 6; 7; 1; 9; 4];
   [7; 9; 3; 1; 13; 12; 11; 14; 2; 6; 5; 10; 4; 0; 15; 8];
   [9; 0; 5; 7; 2; 4; 10; 15; 14; 1; 11; 12; 6; 8; 3; 13];
   [2; 12; 6; 10; 0; 11; 8; 3; 4; 13; 7; 5; 15; 14; 1; 9];
   [12; 5; 1; 15; 14; 13; 4; 10; 0; 7; 6; 3; 9; 2; 8; 11];
   [13; 11; 7; 14; 12; 1; 3; 9; 5; 0; 15; 4; 8; 6; 2; 10];
   [6; 15; 14; 9; 11; 3; 0; 8; 12; 2; 13; 7; 1; 4; 10; 5];
   [10; 2; 8; 4; 7; 6; 1; 5; 15; 11; 9; 14; 3; 12; 13; 0]]%nat.

(** The mixing function on the working vector. *)
Definition G (v : list Z) (a b c d : nat) (x y : Z) : list Z :=
  let v := <[a := w64 (v !!! a + v !!! b + x)]> v in
  let v := <[d := rotr64 (Z.lxor (v !!! d) (v !!! a)) 32]> v in
  let v := <[c := w64 (v !!! c + v !!! d)]> v in
  let v := <[b := rotr64 (Z.lxor (v !!! b) (v !!! c)) 24]> v in
  let v := <[a := w64 (v !!! a + v !!! b + y)]> v in
  let v := <[d := rotr64 (Z.lxor (v !!! d) (v !!! a)) 16]> v in
  let v := <[c := w64 (v !!! c + v !!! d)]> v in
  let v := <[b := rotr64 (Z.lxor (v !!! b) (v !!! c)) 63]> v in
  v.

Definition round (m : list Z) (v : list Z) (s : list nat) : list Z :=
  let w := fun i : nat => m !!! (s !!! i) in
  let v := G v 0 4 8 12 (w 0%nat) (w 1%nat) in
  let v := G v 1 5 9 13 (w 2%nat) (w 3%nat) in
  let v := G v 2 6 10 14 (w 4%nat) (w 5%nat) in
  let v := G v 3 7 11 15 (w 6%nat) (w 7%nat) in
  let v := G v 0 5 10 15 (w 8%nat) (w 9%nat) in
  let v := G v 1 6 11 12 (w 10%nat) (w 11%nat) in
  let v := G v 2 7 8 13 (w 12%nat) (w 13%nat) in
  let v := G v 3 4 9 14 (w 14%nat) (w 15%nat) in
  v.

(** The sixteen little-endian 64-bit words of a 128-byte block. *)
Definition words (block : list byte) : list Z :=
  map (fun i : nat => big_SetBytes (reverse (slice (8 * i) (8 * i + 8) block))) (seq 0 16).

Definition compress (h : list Z) (block : list byte) (t : Z) (final : bool) : list Z :=
  let m := words block in
  let v := h ++ IV in
  let v := <[12%nat := Z.lxor (v !!! 12%nat) (w64 t)]> v in
  let v := <[13%nat := Z.lxor (v !!! 13%nat) (w64 (Z.shiftr t 64))]> v in
  let v := if final then <[14%nat := Z.lxor (v !!! 14%nat) (2 ^ 64 - 1)]> v else v in
  let v := foldl (round m) v (map (fun i : nat => SIGMA !!! (i mod 10)%nat) (seq 0 12)) in
  imap (fun i hi => Z.lxor (Z.lxor hi (v !!! i)) (v !!! (i + 8)%nat)) h.

(** Absorbs the message block by block; the last block, padded with
    zeros, is compressed with the finalisation flag. *)
Equations? absorb (h : list Z) (t : Z) (data : list byte) : list Z
    by wf (length data) lt :=
  absorb h t data with decide (length data <= 128)%nat := {
    | left _ => compress h (data ++ make (128 - length data)) (t + Z.of_nat (length data)) true;
    | right _ => absorb (compress h (take 128 data) (t + 128) false) (t + 128) (drop 128 data) }.
Proof. rewrite length_drop. lia. Qed.

(** The parameter block of an unkeyed hash with a 64-byte digest. *)
Definition init : list Z := <[0%nat := Z.lxor (IV !!! 0%nat) 0x01010040]> IV.

Definition Sum512 (data : list byte) : list byte :=
  concat (map (fun w => reverse (be_bytes 8 w)) (absorb init 0 data)).

End Blake2b.

(** * A small instance of the interfaces

    A twisted Edwards curve [a x^2 + y^2 = 1 + d x^2 y^2] over the prime
    field of 229 elements, with [a = -1] and [d = 77]: it has 248 = 8 * 31
    points, and [Base] generates the subgroup of prime order 31.  Together
    with BLAKE2b-512 and three [hash.Hash] objects it gives inputs on
    which the package runs by computation. *)

Module Toy.

Definition p : Z := 229.

(** Field elements are the canonical residues. *)
Definition fe : Type := dsig (fun x : Z => 0 <= x < p).

Definition fe_val (x : fe) : Z := proj1_sig x.
Definition mk_fe (z : Z) : fe := dexist (z mod p) (Z.mod_pos_bound z p eq_refl).

Definition fe_add (x y : fe) : fe := mk_fe (fe_val x + fe_val y).
Definition fe_sub (x y : fe) : fe := mk_fe (fe_val x - fe_val y).
Definition fe_mul (x y : fe) : fe := mk_fe (fe_val x * fe_val y).
(** The inverse is [x ^ (p - 2)], by square and multiply. *)
Definition fe_inv (x : fe) : fe := Pos.iter_op fe_mul 227 x.

#[global] Instance toy_fr : fr := {|
  fr_Element := fe;
  fr_zero := mk_fe 0;
  fr_SetBytes := fun buf => mk_fe (big_SetBytes buf);
  fr_Bytes := fun x => be_bytes frSize (fe_val x);
  fr_Equal := fun x y => fe_val x =? fe_val y;
  fr_ToBigInt := fe_val
|}.

Definition curve_a : fe := mk_fe (-1).
Definition curve_d : fe := mk_fe 77.

Definition on_curve (P : PointAffine) : bool :=
  let x2 := fe_mul (X P) (X P) in
  let y2 := fe_mul (Y P) (Y P) in
  fe_val (fe_add (fe_mul curve_a x2) y2)
    =? fe_val (fe_add (mk_fe 1) (fe_mul curve_d (fe_mul x2 y2))).

Definition point_add (P Q : PointAffine) : PointAffine :=
  let t := fe_mul curve_d (fe_mul (fe_mul (X P) (X Q)) (fe_mul (Y P) (Y Q))) in
  mkPoint
    (fe_mul (fe_add (fe_mul (X P) (Y Q)) (fe_mul (Y P) (X Q)))
            (fe_inv (fe_add (mk_fe 1) t)))
    (fe_mul (fe_sub (fe_mul (Y P) (Y Q)) (fe_mul curve_a (fe_mul (X P) (X Q))))
            (fe_inv (fe_sub (mk_fe 1) t))).

Definition neutral : PointAffine := mkPoint (mk_fe 0) (mk_fe 1).

Definition scalar_mul (P : PointAffine) (k : Z) : PointAffine :=
  match k with
  | Zpos n => Pos.iter_op point_add n P
  | _ => neutral
  end.

#[global] Instance toy_curve : twistededwards := {|
  IsOnCurve := on_curve;
  ScalarMul := scalar_mul;
  Add := point_add;
  Base := mkPoint (mk_fe 178) (mk_fe 140);
  Order := 31;
  Cofactor := mk_fe 8
|}.

#[global] Instance real_blake2b : blake2b := {| Sum512 := Blake2b.Sum512 |}.

(** The points of the curve, by enumeration of the plane. *)
Definition residues : list Z := map Z.of_nat (seq 0 229).

Definition all_points : list PointAffine :=
  flat_map (fun x => map (fun y => mkPoint (mk_fe x) (mk_fe y)) residues) residues.

Definition curve_points : list PointAffine := filter (fun P => on_curve P = true) all_points.

Definition point_eqb (P Q : PointAffine) : bool :=
  (fe_val (X P) =? fe_val (X Q)) && (fe_val (Y P) =? fe_val (Y Q)).

Fixpoint iterate_add (n : nat) (P : PointAffine) : list PointAffine :=
  match n with
  | O => []
  | S n' => P :: iterate_add n' (point_add Base P)
  end.

(** The 31 multiples of [Base], from [0 * Base] to [30 * Base], and the
    multiple of index [i]. *)
Definition multiples : list PointAffine := iterate_add 31 neutral.

Definition T (i : Z) : PointAffine := nth (Z.to_nat i) multiples neutral.

Definition indices : list Z := map Z.of_nat (seq 0 31).

(** A well-behaved hash object: the state is the data written so far and
    the digest is the first half of its BLAKE2b-512 digest. *)
Definition digest_hash : Hash := {|
  Hash_state := list byte;
  Hash_Reset := fun _ => [];
  Hash_Write := fun s data => (s ++ data, None);
  Hash_Sum := fun s b => b ++ take 32 (Blake2b.Sum512 s)
|}.

(** A hash object whose digest ignores what was written. *)
Definition constant_hash : Hash := {|
  Hash_state := unit;
  Hash_Reset := fun _ => tt;
  Hash_Write := fun s _ => (s, None);
  Hash_Sum := fun _ b => b ++ be_bytes 32 7
|}.

(** A hash object whose [Write] fails. *)
Definition failing_hash : Hash := {|
  Hash_state := unit;
  Hash_Reset := fun _ => tt;
  Hash_Write := fun s _ => (s, Some (errWrite "write failed"));
  Hash_Sum := fun _ b => b
|}.

Definition bytes_of_string (s : string) : list byte := list_byte_of_string s.

(** The seed of the package's tests: "eddsa" padded with zeros to 32 bytes. *)
Definition seed : list byte := bytes_of_string "eddsa" ++ make 27.

(** The messages of [TestEddsaSHA256]. *)
Definition message : list byte := bytes_of_string "message".
Definition wrong_message : list byte := bytes_of_string "wrong_message".

(** The key pair of the test seed and the signature of [message], made
    with [digest_hash] and with [constant_hash]. *)
Definition keys : PublicKey * PrivateKey := New seed.
Definition signed : list byte * (Signature * option error) :=
  @Sign _ _ _ digest_hash message keys.2 [].
Definition signed_constant : unit * (Signature * option error) :=
  @Sign _ _ _ constant_hash message keys.2 tt.

End Toy.

(** * Properties *)

(** ** Bytes and big-endian integers *)

Lemma byte_to_Z_range (b : byte) : 0 <= byte_to_Z b < 256.
Proof.
  unfold byte_to_Z. pose proof (Byte.to_N_bounded b) as Hb.
  split; [apply N2Z.is_nonneg|].
  change 256 with (Z.of_N 256). apply N2Z.inj_lt. lia.
Qed.

Lemma byte_of_to_Z (b : byte) : byte_of_Z (byte_to_Z b) = b.
Proof.
  unfold byte_of_Z. rewrite Z.mod_small by apply byte_to_Z_range.
  unfold byte_to_Z. rewrite N2Z.id, Byte.of_to_N. reflexivity.
Qed.

Lemma byte_to_of_Z (z : Z) : byte_to_Z (byte_of_Z z) = z mod 256.
Proof.
  unfold byte_of_Z, byte_to_Z.
  pose proof (Z.mod_pos_bound z 256 eq_refl) as Hr.
  destruct (Byte.of_N (Z.to_N (z mod 256))) as [b|] eqn:E.
  - apply Byte.to_of_N in E. rewrite E. lia.
  - apply Byte.of_N_None_iff in E. lia.
Qed.

Lemma big_SetBytes_snoc (l : list byte) (b : byte) :
  big_SetBytes (l ++ [b]) = big_SetBytes l * 256 + byte_to_Z b.
Proof. unfold big_SetBytes. rewrite fold_left_app. reflexivity. Qed.

Lemma big_SetBytes_nonneg (l : list byte) : 0 <= big_SetBytes l.
Proof.
  induction l as [|b l IH] using rev_ind; [reflexivity|].
  rewrite big_SetBytes_snoc. pose proof (byte_to_Z_range b). lia.
Qed.

Lemma big_SetBytes_app (l1 l2 : list byte) :
  big_SetBytes (l1 ++ l2) = big_SetBytes l1 * 256 ^ Z.of_nat (length l2) + big_SetBytes l2.
Proof.
  induction l2 as [|b l2 IH] using rev_ind.
  - rewrite app_nil_r. simpl. change (big_SetBytes []) with 0. lia.
  - rewrite app_assoc, !big_SetBytes_snoc, IH, length_app. simpl.
    replace (Z.of_nat (length l2 + 1)) with (Z.of_nat (length l2) + 1) by lia.
    rewrite Z.pow_add_r by lia. lia.
Qed.

Lemma big_SetBytes_upper (l : list byte) : big_SetBytes l < 256 ^ Z.of_nat (length l).
Proof.
  induction l as [|b l IH] using rev_ind; [reflexivity|].
  rewrite big_SetBytes_snoc, length_app. simpl.
  replace (Z.of_nat (length l + 1)) with (Z.of_nat (length l) + 1) by lia.
  rewrite Z.pow_add_r by lia. pose proof (byte_to_Z_range b). lia.
Qed.

Lemma big_SetBytes_make (n : nat) : big_SetBytes (make n) = 0.
Proof.
  induction n as [|n IH]; [reflexivity|].
  unfold make in *. rewrite replicate_S_end, big_SetBytes_snoc, IH. reflexivity.
Qed.

Lemma big_SetBytes_pad (n : nat) (l : list byte) :
  big_SetBytes (make n ++ l) = big_SetBytes l.
Proof. rewrite big_SetBytes_app, big_SetBytes_make. lia. Qed.

Lemma length_be_bytes (n : nat) (z : Z) : length (be_bytes n z) = n.
Proof.
  revert z. induction n as [|n IH]; intros z; simpl; [reflexivity|].
  rewrite length_app, IH. simpl. lia.
Qed.

Lemma big_SetBytes_be_bytes (n : nat) (z : Z) :
  big_SetBytes (be_bytes n z) = z mod 256 ^ Z.of_nat n.
Proof.
  revert z. induction n as [|n IH]; intros z.
  - simpl. rewrite Z.mod_1_r. reflexivity.
  - cbn [be_bytes]. rewrite big_SetBytes_snoc, IH, byte_to_of_Z.
    assert (0 < 256 ^ Z.of_nat n) by (apply Z.pow_pos_nonneg; lia).
    rewrite Nat2Z.inj_succ, Z.pow_succ_r by lia.
    rewrite Z.rem_mul_r by lia. lia.
Qed.

Lemma byte_len_bound (z : Z) : 0 <= z -> z < 256 ^ Z.of_nat (byte_len z).
Proof.
  intros Hz. unfold byte_len. destruct (Z.leb_spec z 0) as [Hle|Hlt]; [simpl; lia|].
  pose proof (Z.log2_nonneg z) as Hl.
  rewrite Nat2Z.inj_succ, Z2Nat.id by (apply Z.div_pos; lia).
  change 256 with (2 ^ 8). rewrite <- Z.pow_mul_r by (try lia; apply Z.le_le_succ_r, Z.div_pos; lia).
  apply Z.log2_lt_pow2; [lia|].
  pose proof (Z.mul_succ_div_gt (Z.log2 z) 8 eq_refl). lia.
Qed.

Lemma byte_len_le (n : nat) (z : Z) :
  0 <= z < 256 ^ Z.of_nat n -> (byte_len z <= n)%nat.
Proof.
  intros [Hz Hlt]. unfold byte_len. destruct (Z.leb_spec z 0) as [Hle|Hpos]; [lia|].
  change 256 with (2 ^ 8) in Hlt. rewrite <- Z.pow_mul_r in Hlt by lia.
  apply Z.log2_lt_pow2 in Hlt; [|lia].
  assert (Z.log2 z / 8 < Z.of_nat n) by (apply Z.div_lt_upper_bound; lia).
  pose proof (Z.log2_nonneg z). assert (0 <= Z.log2 z / 8) by (apply Z.div_pos; lia).
  lia.
Qed.

Lemma big_SetBytes_Bytes (z : Z) : 0 <= z -> big_SetBytes (big_Bytes z) = z.
Proof.
  intros Hz. unfold big_Bytes. rewrite Z.abs_eq by exact Hz.
  rewrite big_SetBytes_be_bytes. apply Z.mod_small.
  split; [exact Hz|apply byte_len_bound, Hz].
Qed.

Lemma length_big_Bytes (z : Z) : length (big_Bytes z) = byte_len (Z.abs z).
Proof. apply length_be_bytes. Qed.

(** ** Slices and copies *)

Lemma result_eta {S1 V E : Type} (r : S1 * (V * option E)) :
  r.2.2 = None -> r = (r.1, (r.2.1, None)).
Proof. destruct r as [s [v e]]. cbn. intros ->. reflexivity. Qed.

Lemma length_make (n : nat) : length (make n) = n.
Proof. apply length_replicate. Qed.

Lemma make_add (n m : nat) : make (n + m) = make n ++ make m.
Proof. apply replicate_add. Qed.

Lemma copy_at_fill {T} (dst src : list T) :
  length src = length dst -> copy_at 0 dst src = src.
Proof.
  intros Hlen. unfold copy_at. simpl.
  rewrite Nat.sub_0_r, <- Hlen, firstn_all, Hlen, drop_all, app_nil_r. reflexivity.
Qed.

Lemma copy_at_prefix {T} (dst rest src : list T) :
  length src = length dst -> copy_at 0 (dst ++ rest) src = src ++ rest.
Proof.
  intros Hlen. unfold copy_at. simpl.
  rewrite take_ge by (rewrite length_app; lia).
  rewrite Hlen, drop_app_length. reflexivity.
Qed.

Lemma copy_at_skip {T} (off : nat) (pre dst src : list T) :
  length pre = off -> copy_at off (pre ++ dst) src = pre ++ copy_at 0 dst src.
Proof.
  intros <-. unfold copy_at. simpl.
  rewrite take_app_length, length_app, drop_app_add'; [|reflexivity].
  replace (length pre + length dst - length pre)%nat with (length dst - 0)%nat by lia.
  reflexivity.
Qed.

Lemma copy_upto_prefix {T} (hi : nat) (dst rest src : list T) :
  length dst = hi -> length src = hi -> copy_upto hi (dst ++ rest) src = src ++ rest.
Proof.
  intros Hd Hs. unfold copy_upto. subst hi.
  rewrite take_app_length, drop_app_length, copy_at_fill by exact Hs. reflexivity.
Qed.

Lemma slice_app_l {T} (n : nat) (l rest : list T) :
  length l = n -> slice 0 n (l ++ rest) = l.
Proof. intros <-. unfold slice. rewrite drop_0, Nat.sub_0_r. apply take_app_length. Qed.

Lemma slice_all {T} (n : nat) (l : list T) : length l = n -> slice 0 n l = l.
Proof. intros <-. unfold slice. rewrite drop_0, Nat.sub_0_r. apply firstn_all. Qed.

Lemma slice_app_skip {T} (lo hi : nat) (pre l : list T) :
  length pre = lo -> slice lo hi (pre ++ l) = slice 0 (hi - lo) l.
Proof.
  intros <-. unfold slice. rewrite drop_app_length, drop_0, Nat.sub_0_r. reflexivity.
Qed.

(** ** The encodings are concatenations *)

Section Encoding.
Context {F : fr} {C : twistededwards}.

Hypothesis fr_Bytes_length : forall x : fr_Element, length (fr_Bytes x) = frSize.

Lemma PublicKey_Bytes_eq (pk : PublicKey) :
  PublicKey_Bytes pk = fr_Bytes (X (A pk)) ++ fr_Bytes (Y (A pk)).
Proof.
  unfold PublicKey_Bytes.
  change sizePublicKey with (frSize + frSize)%nat. rewrite make_add.
  rewrite copy_at_prefix by (rewrite length_make; apply fr_Bytes_length).
  rewrite copy_at_skip by apply fr_Bytes_length.
  rewrite copy_at_fill by (rewrite length_make; apply fr_Bytes_length).
  reflexivity.
Qed.

Lemma Signature_Bytes_eq (sig : Signature) :
  length (sig_S sig) = frSize ->
  Signature_Bytes sig = fr_Bytes (X (sig_R sig)) ++ fr_Bytes (Y (sig_R sig)) ++ sig_S sig.
Proof.
  intros HS. unfold Signature_Bytes.
  change sizeSignature with (frSize + (frSize + frSize))%nat. rewrite !make_add.
  rewrite copy_upto_prefix by (rewrite ?length_make; auto).
  rewrite copy_at_skip by apply fr_Bytes_length.
  rewrite copy_at_prefix by (rewrite length_make; apply fr_Bytes_length).
  rewrite app_assoc, copy_at_skip
    by (rewrite length_app, !fr_Bytes_length; reflexivity).
  rewrite copy_at_fill by (rewrite length_make; exact HS).
  rewrite <- app_assoc. reflexivity.
Qed.

Lemma PrivateKey_Bytes_eq (privKey : PrivateKey) :
  length (scalar privKey) = frSize -> length (randSrc privKey) = 32%nat ->
  PrivateKey_Bytes privKey =
    fr_Bytes (X (A (pubKey privKey))) ++ fr_Bytes (Y (A (pubKey privKey))) ++
    scalar privKey ++ randSrc privKey.
Proof.
  intros Hs Hr. unfold PrivateKey_Bytes.
  change sizePrivateKey with (frSize + (frSize + (frSize + frSize)))%nat. rewrite !make_add.
  rewrite copy_at_prefix by (rewrite length_make; apply fr_Bytes_length).
  rewrite copy_at_skip by apply fr_Bytes_length.
  rewrite copy_at_prefix by (rewrite length_make; apply fr_Bytes_length).
  rewrite app_assoc, copy_at_skip
    by (rewrite length_app, !fr_Bytes_length; reflexivity).
  rewrite copy_at_prefix by (rewrite length_make; exact Hs).
  rewrite <- app_assoc.
  rewrite (app_assoc (fr_Bytes _) (fr_Bytes _)), app_assoc, copy_at_skip
    by (rewrite !length_app, !fr_Bytes_length, Hs; reflexivity).
  rewrite copy_at_fill by (rewrite length_make; exact Hr).
  rewrite <- !app_assoc. reflexivity.
Qed.

End Encoding.

(** ** Decoding *)

Section Decoding.
Context {F : fr} {C : twistededwards}.

Lemma PublicKey_SetBytes_cases (pk : PublicKey) (buf : list byte) :
  PublicKey_SetBytes pk buf =
    if (length buf <? sizePublicKey)%nat then (pk, (0%nat, Some io_ErrShortBuffer))
    else if IsOnCurve (decoded_point buf)
    then (mkPublicKey (decoded_point buf), (64%nat, None))
    else (mkPublicKey (decoded_point buf), (64%nat, Some errNotOnCurve)).
Proof.
  unfold PublicKey_SetBytes, decoded_point, set_X, set_Y. cbn [A X Y].
  destruct (length buf <? sizePublicKey)%nat; [reflexivity|].
  destruct (IsOnCurve _); reflexivity.
Qed.

Lemma Signature_SetBytes_cases (sig : Signature) (buf : list byte) :
  Signature_SetBytes sig buf =
    if (length buf <? sizeSignature)%nat then (sig, (0%nat, Some io_ErrShortBuffer))
    else if IsOnCurve (decoded_point buf)
    then (mkSignature (decoded_point buf)
            (copy_at 0 (sig_S sig) (slice (2 * frSize) (3 * frSize) buf)), (96%nat, None))
    else (mkSignature (decoded_point buf) (sig_S sig), (64%nat, Some errNotOnCurve)).
Proof.
  unfold Signature_SetBytes, decoded_point, set_X, set_Y. cbn [sig_R sig_S X Y].
  destruct (length buf <? sizeSignature)%nat; [reflexivity|].
  destruct (IsOnCurve _); reflexivity.
Qed.

Lemma PrivateKey_SetBytes_cases (privKey : PrivateKey) (buf : list byte) :
  PrivateKey_SetBytes privKey buf =
    if (length buf <? sizePrivateKey)%nat then (privKey, (0%nat, Some io_ErrShortBuffer))
    else if IsOnCurve (decoded_point buf)
    then (mkPrivateKey (mkPublicKey (decoded_point buf))
            (copy_at 0 (scalar privKey) (slice (2 * frSize) (3 * frSize) buf))
            (copy_at 0 (randSrc privKey) (drop (3 * frSize) buf)), (96%nat, None))
    else (mkPrivateKey (mkPublicKey (decoded_point buf)) (scalar privKey) (randSrc privKey),
          (64%nat, Some errNotOnCurve)).
Proof.
  unfold PrivateKey_SetBytes, decoded_point, set_X, set_Y.
  cbn [pubKey scalar randSrc A X Y].
  destruct (length buf <? sizePrivateKey)%nat; [reflexivity|].
  destruct (IsOnCurve _); reflexivity.
Qed.

(** C6. A buffer shorter than the fixed size of the structure (64, 96 and
    128 bytes for [PublicKey], [Signature] and [PrivateKey]) makes
    [SetBytes] fail with [io.ErrShortBuffer], whatever its length. *)
Theorem SetBytes_short_buffer
    (pk : PublicKey) (sig : Signature) (privKey : PrivateKey) (b1 b2 b3 : list byte) :
  (length b1 < 64)%nat -> (length b2 < 96)%nat -> (length b3 < 128)%nat ->
  (PublicKey_SetBytes pk b1).2.2 = Some io_ErrShortBuffer /\
  (Signature_SetBytes sig b2).2.2 = Some io_ErrShortBuffer /\
  (PrivateKey_SetBytes privKey b3).2.2 = Some io_ErrShortBuffer.
Proof.
  intros H1 H2 H3.
  rewrite PublicKey_SetBytes_cases, Signature_SetBytes_cases, PrivateKey_SetBytes_cases.
  apply Nat.ltb_lt in H1, H2, H3.
  change sizePublicKey with 64%nat. change sizeSignature with 96%nat.
  change sizePrivateKey with 128%nat.
  rewrite H1, H2, H3. repeat split.
Qed.

(** C9. When [SetBytes] returns [io.ErrShortBuffer] the receiver is
    unchanged; when it returns [errNotOnCurve] the receiver's point
    already holds the decoded coordinates, and the byte fields of a
    [Signature] or [PrivateKey] are the old ones. *)
Theorem SetBytes_receiver_on_error
    (pk : PublicKey) (sig : Signature) (privKey : PrivateKey) (buf : list byte) :
  ((PublicKey_SetBytes pk buf).2.2 = Some io_ErrShortBuffer ->
     (PublicKey_SetBytes pk buf).1 = pk) /\
  ((Signature_SetBytes sig buf).2.2 = Some io_ErrShortBuffer ->
     (Signature_SetBytes sig buf).1 = sig) /\
  ((PrivateKey_SetBytes privKey buf).2.2 = Some io_ErrShortBuffer ->
     (PrivateKey_SetBytes privKey buf).1 = privKey) /\
  ((PublicKey_SetBytes pk buf).2.2 = Some errNotOnCurve ->
     (PublicKey_SetBytes pk buf).1 = mkPublicKey (decoded_point buf)) /\
  ((Signature_SetBytes sig buf).2.2 = Some errNotOnCurve ->
     (Signature_SetBytes sig buf).1 = mkSignature (decoded_point buf) (sig_S sig)) /\
  ((PrivateKey_SetBytes privKey buf).2.2 = Some errNotOnCurve ->
     (PrivateKey_SetBytes privKey buf).1 =
       mkPrivateKey (mkPublicKey (decoded_point buf)) (scalar privKey) (randSrc privKey)).
Proof.
  rewrite PublicKey_SetBytes_cases, Signature_SetBytes_cases, PrivateKey_SetBytes_cases.
  destruct (length buf <? sizePublicKey)%nat, (length buf <? sizeSignature)%nat,
    (length buf <? sizePrivateKey)%nat, (IsOnCurve (decoded_point buf));
    cbn; repeat split; intros; congruence.
Qed.

(** C10. A successful [PrivateKey.SetBytes] returns the count 96 although
    the buffer holds at least 128 bytes and its bytes 96..127 are copied
    into [randSrc]; successful [PublicKey.SetBytes] and
    [Signature.SetBytes] return 64 and 96. *)
Theorem SetBytes_count
    (pk pk' : PublicKey) (sig sig' : Signature) (privKey privKey' : PrivateKey)
    (b1 b2 b3 : list byte) (n1 n2 n3 : nat) :
  length (scalar privKey) = frSize -> length (randSrc privKey) = 32%nat ->
  PublicKey_SetBytes pk b1 = (pk', (n1, None)) ->
  Signature_SetBytes sig b2 = (sig', (n2, None)) ->
  PrivateKey_SetBytes privKey b3 = (privKey', (n3, None)) ->
  n1 = sizePublicKey /\ n2 = sizeSignature /\
  n3 = (3 * frSize)%nat /\ (4 * frSize <= length b3)%nat /\
  scalar privKey' = slice (2 * frSize) (3 * frSize) b3 /\
  randSrc privKey' = slice (3 * frSize) (4 * frSize) b3.
Proof.
  intros Hs Hr.
  rewrite PublicKey_SetBytes_cases, Signature_SetBytes_cases, PrivateKey_SetBytes_cases.
  destruct (length b1 <? sizePublicKey)%nat; [discriminate|].
  destruct (length b2 <? sizeSignature)%nat; [discriminate|].
  destruct (Nat.ltb_spec (length b3) sizePrivateKey) as [|Hlen]; [discriminate|].
  change sizePrivateKey with 128%nat in Hlen. change frSize with 32%nat in *.
  destruct (IsOnCurve (decoded_point b1)); [|discriminate].
  destruct (IsOnCurve (decoded_point b2)); [|discriminate].
  destruct (IsOnCurve (decoded_point b3)); [|discriminate].
  intros [= <- <-] [= <- <-] [= <- <-]. cbn [scalar randSrc].
  repeat split; try lia.
  - apply copy_at_fill. unfold slice. rewrite length_take, length_drop. lia.
  - unfold copy_at, slice. rewrite Hr, take_0, app_nil_l, Nat.sub_0_r.
    rewrite (drop_ge (randSrc privKey)), app_nil_r; [reflexivity|].
    rewrite Nat.add_0_l, length_drop. lia.
Qed.

End Decoding.

(** ** Key derivation *)

Section KeyDerivation.
Context {F : fr} {C : twistededwards} {B : blake2b}.

(** Splits a list of known length into its elements. *)
Ltac explode l :=
  repeat (destruct l as [|? l]; [discriminate|]);
  try (destruct l; [|discriminate]).

Lemma reverse_loop_step (i j : nat) (h : list byte) :
  reverse_loop i j h =
    if decide (i < j)%nat
    then reverse_loop (i + 1) (j - 1) (<[j := h !!! i]> (<[i := h !!! j]> h))
    else h.
Proof. rewrite reverse_loop_equation_1. destruct (decide (i < j)%nat); reflexivity. Qed.

(** The loop of [New] reverses the 33 bytes [h[0..32]] and leaves the rest. *)
Lemma reverse_loop_0_32 (h : list byte) :
  length h = 64%nat ->
  reverse_loop 0 32 h = reverse (take 33 h) ++ drop 33 h.
Proof.
  intros Hlen. explode h.
  do 17 (rewrite reverse_loop_step; simpl).
  reflexivity.
Qed.

Lemma New_randSrc (seed : list byte) :
  Sum512_length -> randSrc (New seed).2 = slice 32 64 (Sum512 seed).
Proof.
  intros Hlen. specialize (Hlen seed). unfold New. cbn [snd randSrc].
  destruct (Sum512 seed) as [|b0 h]; [discriminate|]. explode h. reflexivity.
Qed.

(** The scalar is the reversal of the pruned bytes [1..32]. *)
Lemma New_scalar (seed : list byte) :
  Sum512_length -> scalar (New seed).2 = reverse (slice 1 33 (prune (Sum512 seed))).
Proof.
  intros Hlen. specialize (Hlen seed). unfold New. cbn [snd scalar].
  destruct (Sum512 seed) as [|b0 h]; [discriminate|]. explode h.
  rewrite reverse_loop_0_32 by (unfold prune; rewrite !length_insert; reflexivity).
  vm_compute. reflexivity.
Qed.

Lemma New_pubKey (seed : list byte) :
  (New seed).1 = mkPublicKey (ScalarMul Base (big_SetBytes (scalar (New seed).2))) /\
  pubKey (New seed).2 = (New seed).1.
Proof. unfold New. cbn [fst snd pubKey scalar]. split; reflexivity. Qed.

Lemma New_lengths (seed : list byte) :
  Sum512_length ->
  length (scalar (New seed).2) = frSize /\ length (randSrc (New seed).2) = 32%nat.
Proof.
  intros Hlen. rewrite New_scalar, New_randSrc by exact Hlen. specialize (Hlen seed).
  unfold slice, prune. rewrite length_reverse, !length_take, !length_drop, !length_insert.
  change frSize with 32%nat. lia.
Qed.

(** What [New] computes: [scalar[i]] is byte [32 - i] of the pruned
    digest, so [scalar[0]] is the unpruned digest byte 32 (also
    [randSrc[0]]) and the pruned byte 0 is not part of the scalar. *)
Lemma New_scalar_lookup (seed : list byte) (i : nat) :
  Sum512_length -> (i < 32)%nat ->
  scalar (New seed).2 !! i = prune (Sum512 seed) !! (32 - i)%nat.
Proof.
  intros Hlen Hi. rewrite New_scalar by exact Hlen. specialize (Hlen seed).
  assert (Hp : length (prune (Sum512 seed)) = 64%nat)
    by (unfold prune; rewrite !length_insert; exact Hlen).
  rewrite reverse_lookup; unfold slice; rewrite length_take, length_drop, Hp; [|lia].
  rewrite lookup_take_lt by lia. rewrite lookup_drop. f_equal. lia.
Qed.

(** C8. [New] is a function of the seed alone: two runs on equal seeds
    return the same public point, the same scalar bytes and the same
    [randSrc] bytes. *)
Theorem New_deterministic (seed1 seed2 : list byte) :
  seed1 = seed2 ->
  New seed1 = New seed2 /\
  A (New seed1).1 = A (New seed2).1 /\
  A (pubKey (New seed1).2) = A (pubKey (New seed2).2) /\
  scalar (New seed1).2 = scalar (New seed2).2 /\
  randSrc (New seed1).2 = randSrc (New seed2).2.
Proof. intros ->. repeat split. Qed.

End KeyDerivation.

(** ** Signing and verification *)

Section Protocol.
Context {F : fr} {C : twistededwards} {B : blake2b} {HF : Hash}.

Lemma Sign_cases (message : list byte) (priv : PrivateKey) (hFunc : Hash_state) :
  Sign message priv hFunc =
    let r := nonce message priv in
    if IsOnCurve (ScalarMul Base r) then
      match Hash_Write (Hash_Reset hFunc)
              (dataToHash (ScalarMul Base r) (A (pubKey priv)) message) with
      | (hFunc', Some e) => (hFunc', (zeroSignature, Some e))
      | (hFunc', None) =>
        (hFunc', (mkSignature (ScalarMul Base r)
                    (S_bytes (big_Mod (hramInt hFunc' * big_SetBytes (scalar priv) + r) Order)),
                  None))
      end
    else (hFunc, (zeroSignature, Some errNotOnCurve)).
Proof.
  unfold Sign. cbn [sig_R sig_S zeroSignature].
  destruct (IsOnCurve (ScalarMul Base (nonce message priv))); cbn [negb]; [|reflexivity].
  destruct (Hash_Write _ _) as [hFunc' [e|]]; reflexivity.
Qed.

Lemma Sign_ok (message : list byte) (priv : PrivateKey) (hFunc hFunc' : Hash_state)
    (sig : Signature) :
  Sign message priv hFunc = (hFunc', (sig, None)) ->
  IsOnCurve (ScalarMul Base (nonce message priv)) = true /\
  Hash_Write (Hash_Reset hFunc)
    (dataToHash (ScalarMul Base (nonce message priv)) (A (pubKey priv)) message)
    = (hFunc', None) /\
  sig = mkSignature (ScalarMul Base (nonce message priv))
          (S_bytes (big_Mod (hramInt hFunc' * big_SetBytes (scalar priv)
                             + nonce message priv) Order)).
Proof.
  rewrite Sign_cases. cbv zeta.
  destruct (IsOnCurve _); [|discriminate].
  destruct (Hash_Write _ _) as [h [e|]]; [discriminate|].
  intros [= -> <-]. repeat split.
Qed.

Lemma Verify_cases (sig : Signature) (message : list byte) (pub : PublicKey)
    (hFunc : Hash_state) :
  Verify sig message pub hFunc =
    if IsOnCurve (A pub) then
      match Hash_Write (Hash_Reset hFunc) (dataToHash (sig_R sig) (A pub) message) with
      | (hFunc', Some e) => (hFunc', (false, Some e))
      | (hFunc', None) =>
        let lhs := lhs_point sig in
        let rhs := rhs_point sig pub (hramInt hFunc') in
        if IsOnCurve lhs then
          if IsOnCurve rhs
          then (hFunc', (fr_Equal (X lhs) (X rhs) && fr_Equal (Y lhs) (Y rhs), None))
          else (hFunc', (false, Some errNotOnCurve))
        else (hFunc', (false, Some errNotOnCurve))
      end
    else (hFunc, (false, Some errNotOnCurve)).
Proof.
  unfold Verify, lhs_point, rhs_point.
  destruct (IsOnCurve (A pub)); cbn [negb]; [|reflexivity].
  destruct (Hash_Write _ _) as [hFunc' [e|]]; [reflexivity|].
  cbv zeta. fold (hramInt hFunc').
  destruct (IsOnCurve (ScalarMul (ScalarMul Base _) _)); cbn [negb]; [|reflexivity].
  destruct (IsOnCurve (ScalarMul (Add _ _) _)); cbn [negb]; [|reflexivity].
  destruct (fr_Equal (X _) (X _)), (fr_Equal (Y _) (Y _)); reflexivity.
Qed.

(** The field [S] is always [frSize] bytes long. *)
Lemma length_S_bytes (bs : Z) : length (S_bytes bs) = frSize.
Proof.
  unfold S_bytes. generalize (big_Bytes bs). intros sb. cbv zeta.
  generalize (if (length sb <? frSize)%nat then make (frSize - length sb) ++ sb else sb).
  intros sb'. unfold copy_at.
  rewrite !length_app, !length_take, length_drop, length_make. lia.
Qed.

(** When the integer fits, [S] is its encoding padded on the left. *)
Lemma S_bytes_fits (bs : Z) :
  0 <= bs < 256 ^ Z.of_nat frSize ->
  S_bytes bs = make (frSize - length (big_Bytes bs)) ++ big_Bytes bs.
Proof.
  intros Hbs. unfold S_bytes.
  assert (Hlen : (length (big_Bytes bs) <= frSize)%nat).
  { rewrite length_big_Bytes, Z.abs_eq by lia. apply byte_len_le, Hbs. }
  destruct (Nat.ltb_spec (length (big_Bytes bs)) frSize) as [Hlt|Hge].
  - apply copy_at_fill. rewrite length_app, !length_make. lia.
  - replace (frSize - length (big_Bytes bs))%nat with 0%nat by lia.
    change (make 0 ++ big_Bytes bs) with (big_Bytes bs).
    apply copy_at_fill. rewrite length_make. lia.
Qed.

Lemma big_SetBytes_S_bytes (bs : Z) :
  0 <= bs < 256 ^ Z.of_nat frSize -> big_SetBytes (S_bytes bs) = bs.
Proof.
  intros Hbs. rewrite S_bytes_fits by exact Hbs.
  rewrite big_SetBytes_pad. apply big_SetBytes_Bytes. lia.
Qed.

Lemma nonce_nonneg (message : list byte) (priv : PrivateKey) : 0 <= nonce message priv.
Proof. apply big_SetBytes_nonneg. Qed.

Lemma hramInt_nonneg (hFunc : Hash_state) : 0 <= hramInt hFunc.
Proof. apply big_SetBytes_nonneg. Qed.

(** C4. In a signature returned by [Sign], [S] is the integer
    [(r + H * scalar) mod Order] over [Z], with [r] the nonce and [H] the
    challenge integer; [S] is exactly [frSize] bytes long and is the
    big-endian encoding of that integer with zero bytes added on the left. *)
Theorem Sign_response (message : list byte) (priv : PrivateKey)
    (hFunc hFunc' : Hash_state) (sig : Signature) :
  Order_fits ->
  Sign message priv hFunc = (hFunc', (sig, None)) ->
  let r := nonce message priv in
  let H := hramInt hFunc' in
  let s := (r + H * big_SetBytes (scalar priv)) mod Order in
  big_SetBytes (sig_S sig) = s /\
  length (sig_S sig) = frSize /\
  sig_S sig = make (frSize - length (big_Bytes s)) ++ big_Bytes s.
Proof.
  intros [Hpos Hfit] Hsign. apply Sign_ok in Hsign as (_ & _ & ->). cbn [sig_S].
  unfold big_Mod. rewrite (Z.abs_eq Order) by lia.
  replace (hramInt hFunc' * big_SetBytes (scalar priv) + nonce message priv)
    with (nonce message priv + hramInt hFunc' * big_SetBytes (scalar priv)) by lia.
  cbv zeta.
  pose proof (Z.mod_pos_bound
    (nonce message priv + hramInt hFunc' * big_SetBytes (scalar priv)) Order Hpos) as Hr.
  split; [apply big_SetBytes_S_bytes; lia|].
  split; [apply length_S_bytes|apply S_bytes_fits; lia].
Qed.

Lemma lhs_on_curve (sig : Signature) :
  curve_closed -> Cofactor_nonneg -> IsOnCurve (lhs_point sig) = true.
Proof.
  intros Hc Hcof. unfold lhs_point.
  apply (ScalarMul_on_curve Hc); [|exact Hcof].
  apply (ScalarMul_on_curve Hc); [apply (Base_on_curve Hc)|apply big_SetBytes_nonneg].
Qed.

Lemma rhs_on_curve (sig : Signature) (pub : PublicKey) (H : Z) :
  curve_closed -> Cofactor_nonneg -> 0 <= H ->
  IsOnCurve (sig_R sig) = true -> IsOnCurve (A pub) = true ->
  IsOnCurve (rhs_point sig pub H) = true.
Proof.
  intros Hc Hcof HH HR HA. unfold rhs_point.
  apply (ScalarMul_on_curve Hc); [|exact Hcof].
  apply (Add_on_curve Hc); [|exact HR].
  apply (ScalarMul_on_curve Hc); assumption.
Qed.

Lemma point_eq (P Q : PointAffine) : X P = X Q -> Y P = Y Q -> P = Q.
Proof. destruct P, Q. cbn. intros -> ->. reflexivity. Qed.

(** C3. For a signature and a public key whose points are on the curve,
    once the challenge [H] has been hashed, [Verify] compares
    [lhs = Cofactor * (S * Base)] with [rhs = Cofactor * (H * A + R)]: it
    returns [true] exactly when both coordinates are equal, and
    [(false, nil)], not an error, when they differ. *)
Theorem Verify_equation (sig : Signature) (message : list byte) (pub : PublicKey)
    (hFunc hFunc' : Hash_state) :
  curve_closed -> Cofactor_nonneg -> fr_Equal_spec ->
  IsOnCurve (sig_R sig) = true -> IsOnCurve (A pub) = true ->
  Hash_Write (Hash_Reset hFunc) (dataToHash (sig_R sig) (A pub) message) = (hFunc', None) ->
  let lhs := lhs_point sig in
  let rhs := rhs_point sig pub (hramInt hFunc') in
  (Verify sig message pub hFunc).2 =
    (fr_Equal (X lhs) (X rhs) && fr_Equal (Y lhs) (Y rhs), None) /\
  ((Verify sig message pub hFunc).2 = (true, None) <-> X lhs = X rhs /\ Y lhs = Y rhs) /\
  (~ (X lhs = X rhs /\ Y lhs = Y rhs) -> (Verify sig message pub hFunc).2 = (false, None)).
Proof.
  intros Hc Hcof Heq HR HA Hw lhs rhs.
  assert (Hv : (Verify sig message pub hFunc).2 =
            (fr_Equal (X lhs) (X rhs) && fr_Equal (Y lhs) (Y rhs), None)).
  { rewrite Verify_cases, HA, Hw. cbv zeta.
    rewrite lhs_on_curve, rhs_on_curve by (assumption || apply hramInt_nonneg).
    reflexivity. }
  rewrite Hv. split; [reflexivity|]. split.
  - split.
    + intros [= Hb]. apply andb_true_iff in Hb as [Hx Hy].
      split; apply Heq; assumption.
    + intros [Hx Hy]. apply Heq in Hx, Hy. rewrite Hx, Hy. reflexivity.
  - intros Hne. f_equal. apply not_true_is_false. intros Hb.
    apply Hne. apply andb_true_iff in Hb as [Hx Hy]. split; apply Heq; assumption.
Qed.

(** Both sides for a signature made with the scalar of the key: they are
    the multiples of [Base] by [Cofactor * (r + H1 * s)] and
    [Cofactor * (r + H2 * s)], where [H1] is the challenge of the signed
    message and [H2] the challenge of the verified one. *)
Lemma lhs_signed (r H1 s : Z) (RR : PointAffine) :
  base_group -> Cofactor_nonneg -> Order_fits -> 0 <= r -> 0 <= H1 -> 0 <= s ->
  lhs_point (mkSignature RR (S_bytes (big_Mod (H1 * s + r) Order))) =
    ScalarMul Base ((H1 * s + r) * fr_ToBigInt Cofactor).
Proof.
  intros Hg Hcof [Hpos Hfit] Hr HH Hs. unfold lhs_point. cbn [sig_S].
  unfold big_Mod. rewrite (Z.abs_eq Order) by lia.
  pose proof (Z.mod_pos_bound (H1 * s + r) Order Hpos) as Hm.
  rewrite big_SetBytes_S_bytes by lia.
  rewrite (ScalarMul_Base_Order Hg) by nia.
  apply (ScalarMul_Base_mul Hg); [nia|exact Hcof].
Qed.

Lemma rhs_signed (r H2 s : Z) (sb : list byte) :
  base_group -> Cofactor_nonneg -> 0 <= r -> 0 <= H2 -> 0 <= s ->
  rhs_point (mkSignature (ScalarMul Base r) sb) (mkPublicKey (ScalarMul Base s)) H2 =
    ScalarMul Base ((s * H2 + r) * fr_ToBigInt Cofactor).
Proof.
  intros Hg Hcof Hr HH Hs. unfold rhs_point. cbn [sig_R A].
  rewrite (ScalarMul_Base_mul Hg) by assumption.
  rewrite (ScalarMul_Base_add Hg) by nia.
  apply (ScalarMul_Base_mul Hg); [nia|exact Hcof].
Qed.

(** Sign-then-verify for any private key that holds its own public point
    [scalar * Base]. *)
Lemma Verify_Sign (message : list byte) (priv : PrivateKey)
    (hFunc hFunc' hFunc2 : Hash_state) (sig : Signature) :
  fr_Equal_spec -> curve_closed -> base_group -> Cofactor_nonneg -> Order_fits ->
  Hash_Reset_initial ->
  A (pubKey priv) = ScalarMul Base (big_SetBytes (scalar priv)) ->
  Sign message priv hFunc = (hFunc', (sig, None)) ->
  Verify sig message (pubKey priv) hFunc2 = (hFunc', (true, None)).
Proof.
  intros Heq Hc Hg Hcof Hfit Hreset HA Hsign.
  apply Sign_ok in Hsign as (HR & Hw & ->).
  pose proof (nonce_nonneg message priv) as Hr.
  pose proof (hramInt_nonneg hFunc') as HH.
  pose proof (big_SetBytes_nonneg (scalar priv)) as Hs.
  rewrite Verify_cases. cbn [sig_R].
  assert (HonA : IsOnCurve (A (pubKey priv)) = true).
  { rewrite HA. apply (ScalarMul_on_curve Hc); [apply (Base_on_curve Hc)|exact Hs]. }
  rewrite HonA, (Hreset hFunc2 hFunc), Hw. cbv zeta.
  rewrite lhs_on_curve by assumption.
  rewrite rhs_on_curve by assumption.
  rewrite lhs_signed by assumption.
  destruct (pubKey priv) as [a]. cbn [A] in HA. subst a.
  rewrite rhs_signed by assumption.
  replace (big_SetBytes (scalar priv) * hramInt hFunc' + nonce message priv)
    with (hramInt hFunc' * big_SetBytes (scalar priv) + nonce message priv) by lia.
  assert (Hrefl : forall x : fr_Element, fr_Equal x x = true) by (intros x; apply Heq; reflexivity).
  rewrite !Hrefl. reflexivity.
Qed.

(** C1. A signature that [Sign] returns for a key pair made by [New]
    verifies: [Verify] on the same message, with the public key of the
    pair and the same hash object in any state, returns [(true, nil)]. *)
Theorem sign_then_verify (seed message : list byte)
    (hFunc hFunc' hFunc2 : Hash_state) (sig : Signature) :
  fr_Equal_spec -> curve_closed -> base_group -> Cofactor_nonneg -> Order_fits ->
  Hash_Reset_initial ->
  Sign message (New seed).2 hFunc = (hFunc', (sig, None)) ->
  (Verify sig message (New seed).1 hFunc2).2 = (true, None).
Proof.
  intros Heq Hc Hg Hcof Hfit Hreset Hsign.
  destruct (New_pubKey seed) as [Hpub Hpriv].
  rewrite <- Hpriv.
  rewrite (Verify_Sign message (New seed).2 hFunc hFunc' hFunc2 sig); try assumption.
  - reflexivity.
  - rewrite Hpriv, Hpub. reflexivity.
Qed.

Lemma mod_eq_sub (a b n : Z) : a mod n = b mod n -> (a - b) mod n = 0.
Proof. intros Hab. rewrite Zminus_mod, Hab, Z.sub_diag. apply Zmod_0_l. Qed.

(** Verifying against another message, for any private key that holds its
    own public point: a challenge that differs enough is rejected. *)
Lemma Verify_Sign_other (m1 m2 : list byte) (priv : PrivateKey)
    (hFunc hFunc' hFunc2 hFunc2' : Hash_state) (sig : Signature) :
  fr_Equal_spec -> curve_closed -> base_group -> Base_exact_order ->
  Cofactor_nonneg -> Order_fits ->
  A (pubKey priv) = ScalarMul Base (big_SetBytes (scalar priv)) ->
  Sign m1 priv hFunc = (hFunc', (sig, None)) ->
  Hash_Write (Hash_Reset hFunc2) (dataToHash (sig_R sig) (A (pubKey priv)) m2)
    = (hFunc2', None) ->
  (fr_ToBigInt Cofactor * (hramInt hFunc' - hramInt hFunc2') * big_SetBytes (scalar priv))
    mod Order <> 0 ->
  Verify sig m2 (pubKey priv) hFunc2 = (hFunc2', (false, None)).
Proof.
  intros Heq Hc Hg Hex Hcof Hfit HA Hsign Hw2 Hne.
  apply Sign_ok in Hsign as (HR & Hw & ->). cbn [sig_R] in Hw2.
  pose proof (nonce_nonneg m1 priv) as Hr.
  pose proof (hramInt_nonneg hFunc') as HH1.
  pose proof (hramInt_nonneg hFunc2') as HH2.
  pose proof (big_SetBytes_nonneg (scalar priv)) as Hs.
  rewrite Verify_cases. cbn [sig_R].
  assert (HonA : IsOnCurve (A (pubKey priv)) = true).
  { rewrite HA. apply (ScalarMul_on_curve Hc); [apply (Base_on_curve Hc)|exact Hs]. }
  rewrite HonA, Hw2. cbv zeta.
  rewrite lhs_on_curve by assumption.
  rewrite rhs_on_curve by assumption.
  rewrite lhs_signed by assumption.
  destruct (pubKey priv) as [a]. cbn [A] in HA. subst a.
  rewrite rhs_signed by assumption.
  do 2 f_equal. apply not_true_is_false. intros Hb.
  apply andb_true_iff in Hb as [Hx Hy]. apply Heq in Hx, Hy.
  pose proof (point_eq _ _ Hx Hy) as Hpt.
  unfold Cofactor_nonneg in Hcof.
  rewrite <- (ScalarMul_Base_Order Hg
                ((hramInt hFunc' * big_SetBytes (scalar priv) + nonce m1 priv)
                 * fr_ToBigInt Cofactor)) in Hpt by nia.
  rewrite <- (ScalarMul_Base_Order Hg
                ((big_SetBytes (scalar priv) * hramInt hFunc2' + nonce m1 priv)
                 * fr_ToBigInt Cofactor)) in Hpt by nia.
  destruct Hfit as [Hpos _].
  apply Hex in Hpt; try (apply Z.mod_pos_bound; exact Hpos).
  apply mod_eq_sub in Hpt. apply Hne. rewrite <- Hpt. f_equal. ring.
Qed.

(** C7, as the code has it. A signature of [m1] made with a key pair of
    [New] is rejected for a message [m2], with [(false, nil)], whenever
    the challenge integers [H1] of [m1] and [H2] of [m2] satisfy
    [Cofactor * (H1 - H2) * scalar mod Order <> 0]. *)
Theorem verify_other_message (seed m1 m2 : list byte)
    (hFunc hFunc' hFunc2 hFunc2' : Hash_state) (sig : Signature) :
  fr_Equal_spec -> curve_closed -> base_group -> Base_exact_order ->
  Cofactor_nonneg -> Order_fits ->
  Sign m1 (New seed).2 hFunc = (hFunc', (sig, None)) ->
  Hash_Write (Hash_Reset hFunc2) (dataToHash (sig_R sig) (A (New seed).1) m2)
    = (hFunc2', None) ->
  (fr_ToBigInt Cofactor * (hramInt hFunc' - hramInt hFunc2')
     * big_SetBytes (scalar (New seed).2)) mod Order <> 0 ->
  (Verify sig m2 (New seed).1 hFunc2).2 = (false, None).
Proof.
  intros Heq Hc Hg Hex Hcof Hfit Hsign Hw2 Hne.
  destruct (New_pubKey seed) as [Hpub Hpriv].
  rewrite <- Hpriv in Hw2 |- *.
  rewrite (Verify_Sign_other m1 m2 (New seed).2 hFunc hFunc' hFunc2 hFunc2' sig);
    try assumption.
  - reflexivity.
  - rewrite Hpriv, Hpub. reflexivity.
Qed.

(** The other direction: whenever the hash object yields for [m2] the
    challenge integer it yielded for [m1], the signature of [m1] is
    accepted for [m2]. *)
Lemma Verify_Sign_challenge (m1 m2 : list byte) (priv : PrivateKey)
    (hFunc hFunc' hFunc2 hFunc2' : Hash_state) (sig : Signature) :
  fr_Equal_spec -> curve_closed -> base_group -> Cofactor_nonneg -> Order_fits ->
  A (pubKey priv) = ScalarMul Base (big_SetBytes (scalar priv)) ->
  Sign m1 priv hFunc = (hFunc', (sig, None)) ->
  Hash_Write (Hash_Reset hFunc2) (dataToHash (sig_R sig) (A (pubKey priv)) m2)
    = (hFunc2', None) ->
  hramInt hFunc2' = hramInt hFunc' ->
  Verify sig m2 (pubKey priv) hFunc2 = (hFunc2', (true, None)).
Proof.
  intros Heq Hc Hg Hcof Hfit HA Hsign Hw2 HH.
  apply Sign_ok in Hsign as (HR & Hw & ->). cbn [sig_R] in Hw2.
  pose proof (nonce_nonneg m1 priv) as Hr.
  pose proof (hramInt_nonneg hFunc') as HH1.
  pose proof (big_SetBytes_nonneg (scalar priv)) as Hs.
  rewrite Verify_cases. cbn [sig_R].
  assert (HonA : IsOnCurve (A (pubKey priv)) = true).
  { rewrite HA. apply (ScalarMul_on_curve Hc); [apply (Base_on_curve Hc)|exact Hs]. }
  rewrite HonA, Hw2, HH. cbv zeta.
  rewrite lhs_on_curve by assumption.
  rewrite rhs_on_curve by assumption.
  rewrite lhs_signed by assumption.
  destruct (pubKey priv) as [a]. cbn [A] in HA. subst a.
  rewrite rhs_signed by assumption.
  replace (big_SetBytes (scalar priv) * hramInt hFunc' + nonce m1 priv)
    with (hramInt hFunc' * big_SetBytes (scalar priv) + nonce m1 priv) by lia.
  assert (Hrefl : forall x : fr_Element, fr_Equal x x = true) by (intros x; apply Heq; reflexivity).
  rewrite !Hrefl. reflexivity.
Qed.

Lemma Verify_Sign_same_challenge (seed m1 m2 : list byte)
    (hFunc hFunc' hFunc2 hFunc2' : Hash_state) (sig : Signature) :
  fr_Equal_spec -> curve_closed -> base_group -> Cofactor_nonneg -> Order_fits ->
  Sign m1 (New seed).2 hFunc = (hFunc', (sig, None)) ->
  Hash_Write (Hash_Reset hFunc2) (dataToHash (sig_R sig) (A (New seed).1) m2)
    = (hFunc2', None) ->
  hramInt hFunc2' = hramInt hFunc' ->
  (Verify sig m2 (New seed).1 hFunc2).2 = (true, None).
Proof.
  intros Heq Hc Hg Hcof Hfit Hsign Hw2 HH.
  destruct (New_pubKey seed) as [Hpub Hpriv].
  rewrite <- Hpriv in Hw2 |- *.
  rewrite (Verify_Sign_challenge m1 m2 (New seed).2 hFunc hFunc' hFunc2 hFunc2' sig);
    try assumption.
  - reflexivity.
  - rewrite Hpriv, Hpub. reflexivity.
Qed.

End Protocol.

(** ** Round trips of the encodings *)

Section Roundtrip.
Context {F : fr} {C : twistededwards} {B : blake2b} {HF : Hash}.

Lemma decoded_point_Bytes (P : PointAffine) (rest : list byte) :
  fr_codec -> decoded_point (fr_Bytes (X P) ++ fr_Bytes (Y P) ++ rest) = P.
Proof.
  intros [Hlen Hrt]. unfold decoded_point.
  rewrite slice_app_l by apply Hlen.
  rewrite slice_app_skip by apply Hlen.
  replace (2 * frSize - frSize)%nat with frSize by lia.
  rewrite slice_app_l by apply Hlen.
  rewrite !Hrt. destruct P; reflexivity.
Qed.

Lemma PublicKey_roundtrip (pk0 pk : PublicKey) :
  fr_codec -> IsOnCurve (A pk) = true ->
  PublicKey_SetBytes pk0 (PublicKey_Bytes pk) = (pk, (sizePublicKey, None)).
Proof.
  intros Hcodec Hon. pose proof (fr_Bytes_length Hcodec) as Hlen.
  rewrite PublicKey_SetBytes_cases, PublicKey_Bytes_eq by exact Hlen.
  rewrite length_app, !Hlen. cbn [Nat.ltb Nat.leb Nat.add frSize sizePublicKey Nat.mul].
  rewrite <- (app_nil_r (fr_Bytes (Y (A pk)))), decoded_point_Bytes, Hon by exact Hcodec.
  destruct pk; reflexivity.
Qed.

Lemma Signature_roundtrip (sig0 sig : Signature) :
  fr_codec -> IsOnCurve (sig_R sig) = true ->
  length (sig_S sig0) = frSize -> length (sig_S sig) = frSize ->
  Signature_SetBytes sig0 (Signature_Bytes sig) = (sig, (sizeSignature, None)).
Proof.
  intros Hcodec Hon H0 HS. pose proof (fr_Bytes_length Hcodec) as Hlen.
  rewrite Signature_SetBytes_cases, Signature_Bytes_eq by assumption.
  rewrite !length_app, !Hlen, HS. cbn [Nat.ltb Nat.leb Nat.add frSize sizeSignature Nat.mul].
  rewrite decoded_point_Bytes, Hon by exact Hcodec.
  rewrite app_assoc, slice_app_skip by (rewrite length_app, !Hlen; reflexivity).
  replace (3 * frSize - 2 * frSize)%nat with frSize by lia.
  rewrite slice_all by exact HS.
  rewrite copy_at_fill by congruence.
  destruct sig; reflexivity.
Qed.

Lemma PrivateKey_roundtrip (priv0 priv : PrivateKey) :
  fr_codec -> IsOnCurve (A (pubKey priv)) = true ->
  length (scalar priv0) = frSize -> length (randSrc priv0) = 32%nat ->
  length (scalar priv) = frSize -> length (randSrc priv) = 32%nat ->
  PrivateKey_SetBytes priv0 (PrivateKey_Bytes priv) = (priv, ((3 * frSize)%nat, None)).
Proof.
  intros Hcodec Hon Hs0 Hr0 Hs Hr. pose proof (fr_Bytes_length Hcodec) as Hlen.
  rewrite PrivateKey_SetBytes_cases, PrivateKey_Bytes_eq by assumption.
  rewrite !length_app, !Hlen, Hs, Hr.
  cbn [Nat.ltb Nat.leb Nat.add frSize sizePrivateKey Nat.mul].
  rewrite decoded_point_Bytes, Hon by exact Hcodec.
  rewrite (app_assoc (fr_Bytes _) (fr_Bytes _)).
  rewrite slice_app_skip by (rewrite length_app, !Hlen; reflexivity).
  replace (3 * frSize - 2 * frSize)%nat with frSize by lia.
  rewrite slice_app_l by exact Hs.
  rewrite copy_at_fill by congruence.
  rewrite app_assoc, drop_app_length'
    by (rewrite !length_app, !Hlen, Hs; reflexivity).
  rewrite copy_at_fill by congruence.
  destruct priv as [[a] sc rs]; reflexivity.
Qed.

(** C5. For a key pair made by [New] and a signature returned by [Sign],
    [SetBytes] applied to the output of [Bytes] gives back the same
    value, field for field: the point coordinates, the scalar and
    [randSrc] bytes, and the bytes of [S].  The receivers [pk0], [priv0]
    and [sig0] are arbitrary values of the three types. *)
Theorem encode_decode_roundtrip (seed message : list byte)
    (hFunc hFunc' : Hash_state) (sig : Signature)
    (pk0 : PublicKey) (priv0 : PrivateKey) (sig0 : Signature) :
  fr_codec -> curve_closed -> Sum512_length ->
  length (scalar priv0) = frSize -> length (randSrc priv0) = 32%nat ->
  length (sig_S sig0) = frSize ->
  Sign message (New seed).2 hFunc = (hFunc', (sig, None)) ->
  (PublicKey_SetBytes pk0 (PublicKey_Bytes (New seed).1)).1 = (New seed).1 /\
  (PrivateKey_SetBytes priv0 (PrivateKey_Bytes (New seed).2)).1 = (New seed).2 /\
  (Signature_SetBytes sig0 (Signature_Bytes sig)).1 = sig /\
  (PublicKey_SetBytes pk0 (PublicKey_Bytes (New seed).1)).2.2 = None /\
  (PrivateKey_SetBytes priv0 (PrivateKey_Bytes (New seed).2)).2.2 = None /\
  (Signature_SetBytes sig0 (Signature_Bytes sig)).2.2 = None.
Proof.
  intros Hcodec Hc H512 Hs0 Hr0 HS0 Hsign.
  destruct (New_pubKey seed) as [Hpub Hpriv].
  destruct (New_lengths seed H512) as [Hs Hr].
  assert (HonA : IsOnCurve (A (New seed).1) = true).
  { rewrite Hpub. cbn [A].
    apply (ScalarMul_on_curve Hc); [apply (Base_on_curve Hc)|apply big_SetBytes_nonneg]. }
  apply Sign_ok in Hsign as (HR & _ & Hsig).
  rewrite (PublicKey_roundtrip pk0 (New seed).1) by assumption.
  rewrite (PrivateKey_roundtrip priv0 (New seed).2)
    by (try assumption; rewrite Hpriv; exact HonA).
  rewrite (Signature_roundtrip sig0 sig)
    by (try assumption; rewrite Hsig; cbn [sig_R sig_S];
        first [exact HR|apply length_S_bytes]).
  repeat split.
Qed.

End Roundtrip.

(** * Further properties *)

(** ** The encoding layer *)

Section EncodingLayout.
Context {F : fr} {C : twistededwards}.

(** X1. [Bytes] returns exactly the fixed size of its structure (64, 96
    and 128 bytes): the concatenation of the two big-endian coordinates
    X and Y followed by the byte fields, [S] for a signature, [scalar]
    then [randSrc] for a private key. *)
Theorem Bytes_layout (pk : PublicKey) (sig : Signature) (privKey : PrivateKey) :
  (forall x : fr_Element, length (fr_Bytes x) = frSize) ->
  length (sig_S sig) = frSize ->
  length (scalar privKey) = frSize -> length (randSrc privKey) = 32%nat ->
  (length (PublicKey_Bytes pk) = 64%nat /\
   length (Signature_Bytes sig) = 96%nat /\
   length (PrivateKey_Bytes privKey) = 128%nat) /\
  PublicKey_Bytes pk = fr_Bytes (X (A pk)) ++ fr_Bytes (Y (A pk)) /\
  Signature_Bytes sig = fr_Bytes (X (sig_R sig)) ++ fr_Bytes (Y (sig_R sig)) ++ sig_S sig /\
  PrivateKey_Bytes privKey =
    fr_Bytes (X (A (pubKey privKey))) ++ fr_Bytes (Y (A (pubKey privKey))) ++
    scalar privKey ++ randSrc privKey.
Proof.
  intros Hlen HS Hs Hr.
  rewrite PublicKey_Bytes_eq, Signature_Bytes_eq, PrivateKey_Bytes_eq by assumption.
  rewrite !length_app, !Hlen, HS, Hs, Hr. repeat split.
Qed.

(** X2. [SetBytes] succeeds exactly when the buffer holds at least the
    fixed size of the structure and its first two 32-byte blocks decode
    to a point on the curve; it returns [io.ErrShortBuffer] exactly when
    the buffer is shorter, and no error other than these two. *)
Theorem SetBytes_outcome (pk : PublicKey) (sig : Signature) (privKey : PrivateKey)
    (buf : list byte) :
  let on := IsOnCurve (decoded_point buf) in
  let e1 := (PublicKey_SetBytes pk buf).2.2 in
  let e2 := (Signature_SetBytes sig buf).2.2 in
  let e3 := (PrivateKey_SetBytes privKey buf).2.2 in
  (e1 = None <-> (64 <= length buf)%nat /\ on = true) /\
  (e2 = None <-> (96 <= length buf)%nat /\ on = true) /\
  (e3 = None <-> (128 <= length buf)%nat /\ on = true) /\
  (e1 = Some io_ErrShortBuffer <-> (length buf < 64)%nat) /\
  (e2 = Some io_ErrShortBuffer <-> (length buf < 96)%nat) /\
  (e3 = Some io_ErrShortBuffer <-> (length buf < 128)%nat) /\
  (forall e, e1 = Some e \/ e2 = Some e \/ e3 = Some e ->
     e = io_ErrShortBuffer \/ e = errNotOnCurve).
Proof.
  cbv zeta.
  rewrite PublicKey_SetBytes_cases, Signature_SetBytes_cases, PrivateKey_SetBytes_cases.
  change sizePublicKey with 64%nat. change sizeSignature with 96%nat.
  change sizePrivateKey with 128%nat.
  destruct (Nat.ltb_spec (length buf) 64), (Nat.ltb_spec (length buf) 96),
    (Nat.ltb_spec (length buf) 128), (IsOnCurve (decoded_point buf));
    cbn [fst snd]; try lia;
    (repeat split; try (intros; first [lia | congruence | discriminate]);
     try (intros [? ?]; first [lia | discriminate]);
     try (intros e [He|[He|He]]; inversion He; auto)).
Qed.

(** X3. After a successful [SetBytes] the receiver holds the point read
    from the first 64 bytes of the buffer and that point is on the
    curve; a [Signature] holds in [S] the bytes 64..95 of the buffer as
    they are, without any check against the group order. *)
Theorem SetBytes_success (pk pk' : PublicKey) (sig sig' : Signature)
    (privKey privKey' : PrivateKey) (b1 b2 b3 : list byte) (n1 n2 n3 : nat) :
  length (sig_S sig) = frSize ->
  PublicKey_SetBytes pk b1 = (pk', (n1, None)) ->
  Signature_SetBytes sig b2 = (sig', (n2, None)) ->
  PrivateKey_SetBytes privKey b3 = (privKey', (n3, None)) ->
  (A pk' = decoded_point b1 /\ IsOnCurve (A pk') = true) /\
  (sig_R sig' = decoded_point b2 /\ IsOnCurve (sig_R sig') = true /\
   sig_S sig' = slice 64 96 b2) /\
  (A (pubKey privKey') = decoded_point b3 /\ IsOnCurve (A (pubKey privKey')) = true).
Proof.
  intros HS.
  rewrite PublicKey_SetBytes_cases, Signature_SetBytes_cases, PrivateKey_SetBytes_cases.
  destruct (length b1 <? sizePublicKey)%nat; [discriminate|].
  destruct (Nat.ltb_spec (length b2) sizeSignature) as [|Hlen]; [discriminate|].
  destruct (length b3 <? sizePrivateKey)%nat; [discriminate|].
  destruct (IsOnCurve (decoded_point b1)) eqn:H1; [|discriminate].
  destruct (IsOnCurve (decoded_point b2)) eqn:H2; [|discriminate].
  destruct (IsOnCurve (decoded_point b3)) eqn:H3; [|discriminate].
  intros [= <- <-] [= <- <-] [= <- <-]. cbn [A sig_R sig_S pubKey].
  repeat split; try assumption.
  change sizeSignature with 96%nat in Hlen.
  apply copy_at_fill. rewrite HS. unfold slice. rewrite length_take, length_drop.
  change frSize with 32%nat. lia.
Qed.

Lemma SetBytes_app (pk : PublicKey) (sig : Signature)
    (privKey : PrivateKey) (b1 b2 b3 extra : list byte) :
  length (randSrc privKey) = 32%nat ->
  (64 <= length b1)%nat -> (96 <= length b2)%nat -> (128 <= length b3)%nat ->
  PublicKey_SetBytes pk (b1 ++ extra) = PublicKey_SetBytes pk b1 /\
  Signature_SetBytes sig (b2 ++ extra) = Signature_SetBytes sig b2 /\
  PrivateKey_SetBytes privKey (b3 ++ extra) = PrivateKey_SetBytes privKey b3.
Proof.
  intros Hr H1 H2 H3.
  assert (Hpt : forall b, (64 <= length b)%nat ->
            decoded_point (b ++ extra) = decoded_point b).
  { intros b Hb. unfold decoded_point, slice. change frSize with 32%nat.
    rewrite !drop_0, drop_app_le by lia.
    rewrite !take_app_le by (rewrite ?length_drop; lia). reflexivity. }
  assert (Hsl : forall b, (96 <= length b)%nat ->
            slice (2 * frSize) (3 * frSize) (b ++ extra) = slice (2 * frSize) (3 * frSize) b).
  { intros b Hb. unfold slice. change frSize with 32%nat.
    rewrite drop_app_le by lia. rewrite take_app_le by (rewrite length_drop; lia).
    reflexivity. }
  rewrite !PublicKey_SetBytes_cases, !Signature_SetBytes_cases, !PrivateKey_SetBytes_cases.
  rewrite !length_app, !Hpt, !Hsl by lia.
  change sizePublicKey with 64%nat. change sizeSignature with 96%nat.
  change sizePrivateKey with 128%nat.
  replace (length b1 + length extra <? 64)%nat with (length b1 <? 64)%nat
    by (destruct (Nat.ltb_spec (length b1) 64),
          (Nat.ltb_spec (length b1 + length extra) 64); lia || reflexivity).
  replace (length b2 + length extra <? 96)%nat with (length b2 <? 96)%nat
    by (destruct (Nat.ltb_spec (length b2) 96),
          (Nat.ltb_spec (length b2 + length extra) 96); lia || reflexivity).
  replace (length b3 + length extra <? 128)%nat with (length b3 <? 128)%nat
    by (destruct (Nat.ltb_spec (length b3) 128),
          (Nat.ltb_spec (length b3 + length extra) 128); lia || reflexivity).
  assert (Hrs : copy_at 0 (randSrc privKey) (drop (3 * frSize) (b3 ++ extra))
                = copy_at 0 (randSrc privKey) (drop (3 * frSize) b3)).
  { unfold copy_at. change frSize with 32%nat. rewrite Hr, !take_0, !app_nil_l.
    rewrite drop_app_le by lia.
    rewrite take_app_le by (rewrite length_drop; lia).
    rewrite !(drop_ge (randSrc privKey)) by (rewrite ?length_app, ?length_drop; lia).
    reflexivity. }
  rewrite Hrs. repeat split.
Qed.

(** X4. [SetBytes] reads only the first 64, 96 or 128 bytes: bytes that
    follow a buffer of at least the fixed size change neither the
    receiver, nor the count, nor the error. *)
Theorem SetBytes_ignores_trailing_bytes (pk : PublicKey) (sig : Signature)
    (privKey : PrivateKey) (b1 b2 b3 extra1 extra2 extra3 : list byte) :
  length (randSrc privKey) = 32%nat ->
  (64 <= length b1)%nat -> (96 <= length b2)%nat -> (128 <= length b3)%nat ->
  PublicKey_SetBytes pk (b1 ++ extra1) = PublicKey_SetBytes pk b1 /\
  Signature_SetBytes sig (b2 ++ extra2) = Signature_SetBytes sig b2 /\
  PrivateKey_SetBytes privKey (b3 ++ extra3) = PrivateKey_SetBytes privKey b3.
Proof.
  intros Hr H1 H2 H3.
  destruct (SetBytes_app pk sig privKey b1 b2 b3 extra1 Hr H1 H2 H3) as (E1 & _ & _).
  destruct (SetBytes_app pk sig privKey b1 b2 b3 extra2 Hr H1 H2 H3) as (_ & E2 & _).
  destruct (SetBytes_app pk sig privKey b1 b2 b3 extra3 Hr H1 H2 H3) as (_ & _ & E3).
  split; [exact E1|]. split; [exact E2|exact E3].
Qed.

(** X5. Decoding a concatenation with the returned counts: after a
    [PublicKey] or a [Signature] has been decoded from the front of a
    buffer, the buffer without the first [n] bytes is what followed the
    encoding.  After a [PrivateKey] the returned count 96 leaves the 32
    bytes of [randSrc] in front of what followed. *)
Theorem SetBytes_count_as_offset (pk0 pk : PublicKey) (sig0 sig : Signature)
    (priv0 priv : PrivateKey) (rest : list byte) :
  fr_codec ->
  IsOnCurve (A pk) = true -> IsOnCurve (sig_R sig) = true ->
  IsOnCurve (A (pubKey priv)) = true ->
  length (sig_S sig0) = frSize -> length (sig_S sig) = frSize ->
  length (scalar priv0) = frSize -> length (randSrc priv0) = 32%nat ->
  length (scalar priv) = frSize -> length (randSrc priv) = 32%nat ->
  let r1 := PublicKey_SetBytes pk0 (PublicKey_Bytes pk ++ rest) in
  let r2 := Signature_SetBytes sig0 (Signature_Bytes sig ++ rest) in
  let r3 := PrivateKey_SetBytes priv0 (PrivateKey_Bytes priv ++ rest) in
  (r1.1 = pk /\ drop r1.2.1 (PublicKey_Bytes pk ++ rest) = rest) /\
  (r2.1 = sig /\ drop r2.2.1 (Signature_Bytes sig ++ rest) = rest) /\
  (r3.1 = priv /\ drop r3.2.1 (PrivateKey_Bytes priv ++ rest) = randSrc priv ++ rest).
Proof.
  intros Hcodec HA HR HP HS0 HS Hs0 Hr0 Hs Hr. cbv zeta.
  pose proof (fr_Bytes_length Hcodec) as Hlen.
  assert (L1 : length (PublicKey_Bytes pk) = 64%nat)
    by (rewrite PublicKey_Bytes_eq, length_app, !Hlen by exact Hlen; reflexivity).
  assert (L2 : length (Signature_Bytes sig) = 96%nat)
    by (rewrite Signature_Bytes_eq, !length_app, !Hlen, HS by assumption; reflexivity).
  assert (L3 : length (PrivateKey_Bytes priv) = 128%nat)
    by (rewrite PrivateKey_Bytes_eq, !length_app, !Hlen, Hs, Hr by assumption; reflexivity).
  destruct (SetBytes_app pk0 sig0 priv0 (PublicKey_Bytes pk)
              (Signature_Bytes sig) (PrivateKey_Bytes priv) rest) as (E1 & E2 & E3);
    try lia; try assumption.
  rewrite E1, E2, E3.
  rewrite PublicKey_roundtrip, Signature_roundtrip, PrivateKey_roundtrip by assumption.
  cbn [fst snd]. change sizePublicKey with 64%nat. change sizeSignature with 96%nat.
  change (3 * frSize)%nat with 96%nat.
  repeat split.
  - rewrite <- L1. apply drop_app_length.
  - rewrite <- L2. apply drop_app_length.
  - rewrite PrivateKey_Bytes_eq by assumption.
    rewrite (app_assoc (fr_Bytes _)), (app_assoc (_ ++ _) (scalar priv)), <- !app_assoc.
    rewrite !app_assoc, <- (app_assoc _ (randSrc priv) rest).
    apply drop_app_length'. rewrite !length_app, !Hlen, Hs. reflexivity.
Qed.

End EncodingLayout.

(** ** What is hashed *)

Section Hashed.
Context {F : fr} {C : twistededwards} {B : blake2b} {HF : Hash}.

Lemma fill_prefix (l buf : list byte) (k : nat) :
  (k + length l <= length buf)%nat ->
  foldl (fun b iv => <[iv.1 := iv.2]> b) buf (imap (fun i x => ((k + i)%nat, x)) l)
    = take k buf ++ l ++ drop (k + length l) buf.
Proof.
  revert buf k. induction l as [|x l IH]; intros buf k Hlen.
  - cbn. rewrite Nat.add_0_r, take_drop. reflexivity.
  - cbn [imap foldl length] in *. cbn [fst snd].
    rewrite (imap_ext _ (fun i y => ((S k + i)%nat, y))) by (intros; cbn; f_equal; lia).
    rewrite IH by (rewrite length_insert; lia).
    rewrite Nat.add_0_r.
    rewrite (take_S_r _ _ x) by (apply list_lookup_insert_eq; lia).
    rewrite take_insert_ge by lia.
    rewrite drop_insert_lt by lia.
    replace (k + S (length l))%nat with (S k + length l)%nat by lia.
    rewrite <- app_assoc. reflexivity.
Qed.

(** X6. The nonce of [Sign] is read from the BLAKE2b digest of
    [randSrc || message]: the 32 bytes of [priv.randSrc] followed by the
    whole message, and nothing else of the key. *)
Theorem nonce_input (message : list byte) (priv : PrivateKey) :
  length (randSrc priv) = 32%nat ->
  nonce message priv = big_SetBytes (take 32 (Sum512 (randSrc priv ++ message))).
Proof.
  intros Hr. unfold nonce.
  rewrite (imap_ext pair (fun i x => ((0 + i)%nat, x))) by reflexivity.
  rewrite fill_prefix by (rewrite length_make; lia).
  rewrite take_0, app_nil_l, Nat.add_0_l, Hr, make_add.
  rewrite drop_app_length' by (rewrite length_make; reflexivity).
  rewrite copy_at_skip by exact Hr.
  rewrite copy_at_fill by (rewrite length_make; reflexivity).
  reflexivity.
Qed.

(** X7. The buffer hashed for the challenge by [Sign] and by [Verify]
    is [R.X || R.Y || A.X || A.Y || message], 128 bytes of coordinates
    followed by the message as it is. *)
Theorem dataToHash_layout (r a : PointAffine) (message : list byte) :
  (forall x : fr_Element, length (fr_Bytes x) = frSize) ->
  dataToHash r a message =
    fr_Bytes (X r) ++ fr_Bytes (Y r) ++ fr_Bytes (X a) ++ fr_Bytes (Y a) ++ message /\
  length (dataToHash r a message) = (128 + length message)%nat.
Proof.
  intros Hlen.
  assert (Heq : dataToHash r a message =
    fr_Bytes (X r) ++ fr_Bytes (Y r) ++ fr_Bytes (X a) ++ fr_Bytes (Y a) ++ message).
  { unfold dataToHash. cbv zeta.
    change (4 * frSize + length message)%nat
      with (frSize + (frSize + (frSize + (frSize + length message))))%nat.
    rewrite !make_add.
    rewrite copy_at_prefix by (rewrite length_make; apply Hlen).
    rewrite copy_at_skip by apply Hlen.
    rewrite copy_at_prefix by (rewrite length_make; apply Hlen).
    rewrite app_assoc, copy_at_skip by (rewrite length_app, !Hlen; reflexivity).
    rewrite copy_at_prefix by (rewrite length_make; apply Hlen).
    rewrite <- app_assoc.
    rewrite (app_assoc (fr_Bytes (X r))), app_assoc, copy_at_skip
      by (rewrite !length_app, !Hlen; reflexivity).
    rewrite copy_at_prefix by (rewrite length_make; apply Hlen).
    rewrite <- !app_assoc.
    rewrite (app_assoc (fr_Bytes (X r))), (app_assoc (_ ++ _) (fr_Bytes (X a))),
      (app_assoc (_ ++ _) (fr_Bytes (Y a))), copy_at_skip
      by (rewrite !length_app, !Hlen; reflexivity).
    rewrite copy_at_fill by (rewrite length_make; reflexivity).
    rewrite <- !app_assoc. reflexivity. }
  split; [exact Heq|]. rewrite Heq, !length_app, !Hlen. reflexivity.
Qed.

End Hashed.

(** ** Failures and guarantees of [Sign] and [Verify] *)

Section Behaviour.
Context {F : fr} {C : twistededwards} {B : blake2b} {HF : Hash}.

(** X8. When [Sign] returns an error the signature is the zero value
    [Signature{}], and the error is either [errNotOnCurve], raised for
    the commitment before the hash object is touched, or the error that
    the hash object's [Write] returned. *)
Theorem Sign_failure (message : list byte) (priv : PrivateKey)
    (hFunc hFunc' : Hash_state) (sig : Signature) (e : error) :
  Sign message priv hFunc = (hFunc', (sig, Some e)) ->
  let R := ScalarMul Base (nonce message priv) in
  sig = zeroSignature /\
  ((IsOnCurve R = false /\ e = errNotOnCurve /\ hFunc' = hFunc) \/
   (IsOnCurve R = true /\
    Hash_Write (Hash_Reset hFunc) (dataToHash R (A (pubKey priv)) message)
      = (hFunc', Some e))).
Proof.
  rewrite Sign_cases. cbv zeta.
  destruct (IsOnCurve (ScalarMul Base (nonce message priv))) eqn:Hon.
  - destruct (Hash_Write _ _) as [h [e'|]] eqn:Hw; [|discriminate].
    intros [= -> <- ->]. split; [reflexivity|]. right. split; reflexivity.
  - intros [= <- <- <-]. split; [reflexivity|]. left. repeat split.
Qed.

(** X9. [Verify] never answers [true] together with an error, and an
    error it returns is either [errNotOnCurve] or the error that the
    hash object's [Write] returned. *)
Theorem Verify_failure (sig : Signature) (message : list byte) (pub : PublicKey)
    (hFunc hFunc' : Hash_state) (b : bool) (e : error) :
  Verify sig message pub hFunc = (hFunc', (b, Some e)) ->
  b = false /\
  (e = errNotOnCurve \/
   Hash_Write (Hash_Reset hFunc) (dataToHash (sig_R sig) (A pub) message)
     = (hFunc', Some e)).
Proof.
  rewrite Verify_cases.
  destruct (IsOnCurve (A pub)).
  - destruct (Hash_Write _ _) as [h [e'|]] eqn:Hw.
    + intros [= -> <- ->]. split; [reflexivity|right; reflexivity].
    + cbv zeta. destruct (IsOnCurve (lhs_point sig)); [|intros [= <- <- <-]; auto].
      destruct (IsOnCurve (rhs_point sig pub (hramInt h))); [discriminate|].
      intros [= <- <- <-]. auto.
  - intros [= <- <- <-]. auto.
Qed.

(** X10. On a curve closed under its operations and for a signature
    whose [R] is on the curve, [Verify] fails in two cases only: the
    public key is off the curve, which gives [errNotOnCurve] and leaves
    the hash object as it was, or the hash object's [Write] fails, whose
    error is returned; in every other case the error is [nil]. *)
Theorem Verify_errors (sig : Signature) (message : list byte) (pub : PublicKey)
    (hFunc : Hash_state) :
  curve_closed -> Cofactor_nonneg -> IsOnCurve (sig_R sig) = true ->
  (IsOnCurve (A pub) = false ->
     Verify sig message pub hFunc = (hFunc, (false, Some errNotOnCurve))) /\
  (IsOnCurve (A pub) = true ->
     let w := Hash_Write (Hash_Reset hFunc) (dataToHash (sig_R sig) (A pub) message) in
     (Verify sig message pub hFunc).1 = w.1 /\
     (Verify sig message pub hFunc).2.2 = w.2 /\
     (w.2 <> None -> (Verify sig message pub hFunc).2.1 = false)).
Proof.
  intros Hc Hcof HR. rewrite Verify_cases. split; intros HA; rewrite HA; [reflexivity|].
  cbv zeta. destruct (Hash_Write _ _) as [h [e|]]; cbn [fst snd].
  - repeat split.
  - rewrite lhs_on_curve, rhs_on_curve by (assumption || apply hramInt_nonneg).
    cbn [fst snd]. repeat split. intros Hn. contradiction.
Qed.

(** X11. A signature that [Sign] returns without error has its point
    [R = r * Base] on the curve, because [Sign] checks it, whatever the
    curve implementation; its [S] is [frSize] bytes long and, read as a
    big-endian integer, lies in [0, Order). *)
Theorem Sign_success (message : list byte) (priv : PrivateKey)
    (hFunc hFunc' : Hash_state) (sig : Signature) :
  Order_fits ->
  Sign message priv hFunc = (hFunc', (sig, None)) ->
  sig_R sig = ScalarMul Base (nonce message priv) /\
  IsOnCurve (sig_R sig) = true /\
  length (sig_S sig) = frSize /\
  0 <= big_SetBytes (sig_S sig) < Order.
Proof.
  intros [Hpos Hfit] Hsign. apply Sign_ok in Hsign as (HR & _ & ->). cbn [sig_R sig_S].
  split; [reflexivity|]. split; [exact HR|]. split; [apply length_S_bytes|].
  unfold big_Mod. rewrite (Z.abs_eq Order) by lia.
  match goal with |- context [?x mod Order] =>
    pose proof (Z.mod_pos_bound x Order Hpos) as Hm end.
  rewrite big_SetBytes_S_bytes by lia. exact Hm.
Qed.

(** X12. The results of [Sign] and [Verify] do not depend on the state
    in which the hash object is handed over, since both reset it before
    writing: one object can be reused from call to call. *)
Theorem hash_state_is_reset (message : list byte) (priv : PrivateKey) (sig : Signature)
    (pub : PublicKey) (h1 h2 : Hash_state) :
  Hash_Reset_initial ->
  (Sign message priv h1).2 = (Sign message priv h2).2 /\
  (Verify sig message pub h1).2 = (Verify sig message pub h2).2.
Proof.
  intros Hreset. rewrite !Sign_cases, !Verify_cases, (Hreset h1 h2). cbv zeta. split.
  - destruct (IsOnCurve (ScalarMul Base _)); [|reflexivity].
    destruct (Hash_Write _ _) as [h [e|]]; reflexivity.
  - destruct (IsOnCurve (A pub)); [|reflexivity].
    destruct (Hash_Write _ _) as [h [e|]]; [reflexivity|].
    destruct (IsOnCurve (lhs_point sig)); [|reflexivity].
    destruct (IsOnCurve (rhs_point sig pub (hramInt h))); reflexivity.
Qed.

(** X13. [Verify] uses [S] only modulo the group order: two signatures
    with the same [R] whose [S] fields are congruent modulo [Order] get
    the same answer, so adding [Order] to the [S] of an accepted
    signature gives another accepted signature. *)
Theorem Verify_S_modulo_Order (R : PointAffine) (s1 s2 message : list byte)
    (pub : PublicKey) (hFunc : Hash_state) :
  base_group ->
  big_SetBytes s1 mod Order = big_SetBytes s2 mod Order ->
  Verify (mkSignature R s1) message pub hFunc = Verify (mkSignature R s2) message pub hFunc.
Proof.
  intros Hg Hmod. rewrite !Verify_cases. cbn [sig_R].
  assert (Hl : lhs_point (mkSignature R s1) = lhs_point (mkSignature R s2)).
  { unfold lhs_point. cbn [sig_S].
    rewrite <- (ScalarMul_Base_Order Hg (big_SetBytes s1)) by apply big_SetBytes_nonneg.
    rewrite <- (ScalarMul_Base_Order Hg (big_SetBytes s2)) by apply big_SetBytes_nonneg.
    rewrite Hmod. reflexivity. }
  rewrite Hl. reflexivity.
Qed.

(** X14. [Verify] accepts every signature that satisfies the signing
    equation, however the nonce was chosen: for a public key
    [A = s * Base] and any [r >= 0], the pair [R = r * Base],
    [S = (H * s + r) mod Order] with [H] the challenge of [R], [A] and
    the message is answered [(true, nil)]. *)
Theorem Verify_accepts_signing_equation (r s : Z) (message : list byte)
    (pub : PublicKey) (hFunc hFunc' : Hash_state) :
  fr_Equal_spec -> curve_closed -> base_group -> Cofactor_nonneg -> Order_fits ->
  0 <= r -> 0 <= s -> A pub = ScalarMul Base s ->
  Hash_Write (Hash_Reset hFunc) (dataToHash (ScalarMul Base r) (A pub) message)
    = (hFunc', None) ->
  Verify (mkSignature (ScalarMul Base r) (S_bytes (big_Mod (hramInt hFunc' * s + r) Order)))
    message pub hFunc = (hFunc', (true, None)).
Proof.
  intros Heq Hc Hg Hcof Hfit Hr Hs HA Hw.
  pose proof (hramInt_nonneg hFunc') as HH.
  assert (HonR : IsOnCurve (ScalarMul Base r) = true)
    by (apply (ScalarMul_on_curve Hc); [apply (Base_on_curve Hc)|exact Hr]).
  assert (HonA : IsOnCurve (A pub) = true)
    by (rewrite HA; apply (ScalarMul_on_curve Hc); [apply (Base_on_curve Hc)|exact Hs]).
  rewrite Verify_cases. cbn [sig_R]. rewrite HonA, Hw. cbv zeta.
  rewrite lhs_on_curve by assumption.
  rewrite rhs_on_curve by assumption.
  rewrite lhs_signed by assumption.
  destruct pub as [a]. cbn [A] in HA. subst a.
  rewrite rhs_signed by assumption.
  replace (s * hramInt hFunc' + r) with (hramInt hFunc' * s + r) by lia.
  assert (Hrefl : forall x : fr_Element, fr_Equal x x = true) by (intros x; apply Heq; reflexivity).
  rewrite !Hrefl. reflexivity.
Qed.

(** X15. [New] returns a key pair in which the private key holds a copy
    of the public key, the public point is [scalar * Base] and lies on
    the curve, [scalar] and [randSrc] are 32 bytes long and [randSrc]
    is the second half of the BLAKE2b digest of the seed. *)
Theorem New_key_pair (seed : list byte) :
  Sum512_length -> curve_closed ->
  pubKey (New seed).2 = (New seed).1 /\
  A (New seed).1 = ScalarMul Base (big_SetBytes (scalar (New seed).2)) /\
  IsOnCurve (A (New seed).1) = true /\
  length (scalar (New seed).2) = 32%nat /\
  length (randSrc (New seed).2) = 32%nat /\
  randSrc (New seed).2 = slice 32 64 (Sum512 seed).
Proof.
  intros H512 Hc.
  destruct (New_pubKey seed) as [Hpub Hpriv].
  destruct (New_lengths seed H512) as [Hs Hr].
  split; [exact Hpriv|]. split; [rewrite Hpub; reflexivity|].
  split.
  - rewrite Hpub. cbn [A].
    apply (ScalarMul_on_curve Hc); [apply (Base_on_curve Hc)|apply big_SetBytes_nonneg].
  - split; [exact Hs|]. split; [exact Hr|]. apply New_randSrc, H512.
Qed.

(** X16. A signature and a public key that went through [Marshal] and
    [Unmarshal] still verify: for a key pair of [New] and a signature
    returned by [Sign], both decode without error into any receiver and
    [Verify] on the decoded values returns [(true, nil)]. *)
Theorem Verify_after_Marshal (seed message : list byte)
    (hFunc hFunc' hFunc2 : Hash_state) (sig sig0 : Signature) (pk0 : PublicKey) :
  fr_codec -> fr_Equal_spec -> curve_closed -> base_group -> Cofactor_nonneg ->
  Order_fits -> Hash_Reset_initial ->
  length (sig_S sig0) = frSize ->
  Sign message (New seed).2 hFunc = (hFunc', (sig, None)) ->
  let pub' := PublicKey_Unmarshal pk0 (PublicKey_Marshal (New seed).1) in
  let sig' := Signature_Unmarshal sig0 (Signature_Marshal sig) in
  pub'.2 = None /\ sig'.2 = None /\
  (Verify sig'.1 message pub'.1 hFunc2).2 = (true, None).
Proof.
  intros Hcodec Heq Hc Hg Hcof Hfit Hreset HS0 Hsign. cbv zeta.
  destruct (New_pubKey seed) as [Hpub Hpriv].
  assert (HonA : IsOnCurve (A (New seed).1) = true).
  { rewrite Hpub. cbn [A].
    apply (ScalarMul_on_curve Hc); [apply (Base_on_curve Hc)|apply big_SetBytes_nonneg]. }
  pose proof Hsign as Hok. apply Sign_ok in Hok as (HR & _ & Hsig).
  unfold PublicKey_Unmarshal, PublicKey_Marshal, Signature_Unmarshal, Signature_Marshal.
  rewrite (PublicKey_roundtrip pk0 (New seed).1) by assumption.
  rewrite (Signature_roundtrip sig0 sig)
    by (try assumption; rewrite Hsig; cbn [sig_R sig_S];
        first [exact HR|apply length_S_bytes]).
  cbn [fst snd]. split; [reflexivity|]. split; [reflexivity|].
  rewrite <- Hpriv.
  rewrite (Verify_Sign message (New seed).2 hFunc hFunc' hFunc2 sig); try assumption.
  - reflexivity.
  - rewrite Hpriv, Hpub. reflexivity.
Qed.

(** X17. Changing [S] in a signature returned by [Sign] to bytes [s']
    with [Cofactor * (s' - S) mod Order <> 0] makes [Verify] answer
    [(false, nil)] for the message that was signed, on a curve where
    [Base] has order exactly [Order]. *)
Theorem Verify_rejects_other_S (seed message s' : list byte)
    (hFunc hFunc' hFunc2 : Hash_state) (sig : Signature) :
  fr_Equal_spec -> curve_closed -> base_group -> Base_exact_order ->
  Cofactor_nonneg -> Order_fits -> Hash_Reset_initial ->
  Sign message (New seed).2 hFunc = (hFunc', (sig, None)) ->
  (fr_ToBigInt Cofactor * (big_SetBytes s' - big_SetBytes (sig_S sig))) mod Order <> 0 ->
  (Verify (mkSignature (sig_R sig) s') message (New seed).1 hFunc2).2 = (false, None).
Proof.
  intros Heq Hc Hg Hex Hcof Hfit Hreset Hsign Hne.
  destruct (New_pubKey seed) as [Hpub Hpriv].
  assert (HA : A (pubKey (New seed).2) =
               ScalarMul Base (big_SetBytes (scalar (New seed).2)))
    by (rewrite Hpriv, Hpub; reflexivity).
  rewrite <- Hpriv. clear Hpub Hpriv.
  generalize dependent (New seed).2. intros priv Hsign HA.
  apply Sign_ok in Hsign as (HR & Hw & ->). cbn [sig_R sig_S] in *.
  pose proof (nonce_nonneg message priv) as Hr.
  pose proof (hramInt_nonneg hFunc') as HH.
  pose proof (big_SetBytes_nonneg (scalar priv)) as Hs.
  pose proof (big_SetBytes_nonneg s') as Hs'.
  destruct Hfit as [Hpos Hfit].
  unfold big_Mod in Hne. rewrite (Z.abs_eq Order) in Hne by lia.
  pose proof (Z.mod_pos_bound
    (hramInt hFunc' * big_SetBytes (scalar priv) + nonce message priv) Order Hpos) as Hm.
  rewrite big_SetBytes_S_bytes in Hne by lia.
  rewrite Verify_cases. cbn [sig_R].
  assert (HonA : IsOnCurve (A (pubKey priv)) = true).
  { rewrite HA. apply (ScalarMul_on_curve Hc); [apply (Base_on_curve Hc)|exact Hs]. }
  rewrite HonA, (Hreset hFunc2 hFunc), Hw. cbv zeta.
  rewrite lhs_on_curve by assumption.
  rewrite (rhs_on_curve _ _ _ Hc Hcof HH) by assumption.
  unfold lhs_point at 1 2. cbn [sig_S].
  unfold Cofactor_nonneg in Hcof.
  rewrite (ScalarMul_Base_mul Hg) by assumption.
  destruct (pubKey priv) as [a]. cbn [A] in HA. subst a.
  rewrite rhs_signed by assumption.
  cbn [fst snd]. f_equal. apply not_true_is_false. intros Hb.
  apply andb_true_iff in Hb as [Hx Hy]. apply Heq in Hx, Hy.
  pose proof (point_eq _ _ Hx Hy) as Hpt.
  rewrite <- (ScalarMul_Base_Order Hg (big_SetBytes s' * fr_ToBigInt Cofactor))
    in Hpt by nia.
  rewrite <- (ScalarMul_Base_Order Hg
                ((big_SetBytes (scalar priv) * hramInt hFunc' + nonce message priv)
                 * fr_ToBigInt Cofactor)) in Hpt by nia.
  apply Hex in Hpt; try (apply Z.mod_pos_bound; exact Hpos).
  apply mod_eq_sub in Hpt. apply Hne.
  rewrite Z.mul_sub_distr_l, Zminus_mod, Z.mul_mod_idemp_r, <- Zminus_mod by lia.
  rewrite <- Hpt. f_equal. ring.
Qed.

End Behaviour.

(** ** The small instance satisfies the laws *)

Module ToyLaws.
Import Toy.

Lemma fe_val_range (x : fe) : 0 <= fe_val x < p.
Proof. exact (proj2_dsig x). Qed.

Lemma fe_eq (x y : fe) : fe_val x = fe_val y -> x = y.
Proof. apply dsig_eq. Qed.

Lemma mk_fe_val (x : fe) : mk_fe (fe_val x) = x.
Proof. apply fe_eq. cbn. apply Z.mod_small, fe_val_range. Qed.

Lemma toy_fr_codec : fr_codec.
Proof.
  split; intros x.
  - apply length_be_bytes.
  - change (mk_fe (big_SetBytes (be_bytes frSize (fe_val x))) = x).
    rewrite big_SetBytes_be_bytes, Z.mod_small; [apply mk_fe_val|].
    pose proof (fe_val_range x) as Hx. unfold p in Hx.
    change (256 ^ Z.of_nat frSize) with (2 ^ 256). lia.
Qed.

Lemma toy_fr_Equal_spec : fr_Equal_spec.
Proof.
  intros x y. cbn. rewrite Z.eqb_eq. split; [apply fe_eq|intros ->; reflexivity].
Qed.

(** *** Enumerating the curve *)

Lemma point_eqb_eq (P Q : PointAffine) : point_eqb P Q = true -> P = Q.
Proof.
  unfold point_eqb. intros Hb. apply andb_true_iff in Hb as [Hx Hy].
  apply Z.eqb_eq in Hx, Hy. destruct P, Q. cbn in *. f_equal; apply fe_eq; assumption.
Qed.

Lemma residues_complete (z : Z) : 0 <= z < p -> In z residues.
Proof.
  intros Hz. unfold residues. apply in_map_iff. exists (Z.to_nat z).
  split; [lia|]. apply in_seq. unfold p in Hz. lia.
Qed.

Lemma all_points_complete (P : PointAffine) : In P all_points.
Proof.
  destruct P as [x y]. unfold all_points. apply in_flat_map.
  exists (fe_val x). split; [apply residues_complete, fe_val_range|].
  apply in_map_iff. exists (fe_val y).
  split; [|apply residues_complete, fe_val_range].
  rewrite !mk_fe_val. reflexivity.
Qed.

Lemma curve_points_complete (P : PointAffine) : on_curve P = true -> In P curve_points.
Proof.
  intros Hon. unfold curve_points. apply list_elem_of_In, list_elem_of_filter.
  split; [exact Hon|apply list_elem_of_In, all_points_complete].
Qed.

Lemma curve_has_248_points : length curve_points = 248%nat.
Proof. vm_compute. reflexivity. Qed.

Lemma point_add_closed_check :
  forallb (fun P => forallb (fun Q => on_curve (point_add P Q)) curve_points) curve_points
  = true.
Proof. vm_compute. reflexivity. Qed.

Lemma point_add_on_curve (P Q : PointAffine) :
  on_curve P = true -> on_curve Q = true -> on_curve (point_add P Q) = true.
Proof.
  intros HP HQ. pose proof point_add_closed_check as Hall.
  rewrite forallb_forall in Hall. specialize (Hall P (curve_points_complete P HP)).
  rewrite forallb_forall in Hall. exact (Hall Q (curve_points_complete Q HQ)).
Qed.

Lemma iter_op_on_curve (n : positive) (P : PointAffine) :
  on_curve P = true -> on_curve (Pos.iter_op point_add n P) = true.
Proof.
  revert P. induction n as [n IH|n IH|]; intros P HP; cbn [Pos.iter_op].
  - apply point_add_on_curve; [exact HP|]. apply IH, point_add_on_curve; exact HP.
  - apply IH, point_add_on_curve; exact HP.
  - exact HP.
Qed.

Lemma toy_curve_closed : curve_closed.
Proof.
  split.
  - vm_compute. reflexivity.
  - intros P k HP Hk. cbn. destruct k as [|n|n]; cbn.
    + vm_compute. reflexivity.
    + apply iter_op_on_curve, HP.
    + lia.
  - exact point_add_on_curve.
Qed.

(** *** The subgroup generated by [Base] *)

Lemma indices_complete (i : Z) : 0 <= i < 31 -> In i indices.
Proof.
  intros Hi. unfold indices. apply in_map_iff. exists (Z.to_nat i).
  split; [lia|]. apply in_seq. lia.
Qed.

Lemma T_add_check :
  forallb (fun i => forallb (fun j =>
    point_eqb (point_add (T i) (T j)) (T ((i + j) mod 31))) indices) indices = true.
Proof. vm_compute. reflexivity. Qed.

Lemma T_distinct_check :
  forallb (fun i => forallb (fun j =>
    (i =? j) || negb (point_eqb (T i) (T j))) indices) indices = true.
Proof. vm_compute. reflexivity. Qed.

Lemma T_add (i j : Z) :
  0 <= i < 31 -> 0 <= j < 31 -> point_add (T i) (T j) = T ((i + j) mod 31).
Proof.
  intros Hi Hj. pose proof T_add_check as Hall.
  rewrite forallb_forall in Hall. specialize (Hall i (indices_complete i Hi)).
  rewrite forallb_forall in Hall. apply point_eqb_eq, Hall, indices_complete, Hj.
Qed.

Lemma T_inj (i j : Z) : 0 <= i < 31 -> 0 <= j < 31 -> T i = T j -> i = j.
Proof.
  intros Hi Hj Heq. pose proof T_distinct_check as Hall.
  rewrite forallb_forall in Hall. specialize (Hall i (indices_complete i Hi)).
  rewrite forallb_forall in Hall. specialize (Hall j (indices_complete j Hj)).
  apply orb_true_iff in Hall as [Hij|Hne]; [apply Z.eqb_eq, Hij|].
  rewrite Heq in Hne. unfold point_eqb in Hne. rewrite !Z.eqb_refl in Hne. discriminate.
Qed.

Lemma T_1 : T 1 = Base.
Proof. apply point_eqb_eq. vm_compute. reflexivity. Qed.

Lemma iter_op_T (n : positive) (i : Z) :
  0 <= i < 31 -> Pos.iter_op point_add n (T i) = T ((i * Zpos n) mod 31).
Proof.
  revert i. induction n as [n IH|n IH|]; intros i Hi; cbn [Pos.iter_op].
  - pose proof (Z.mod_pos_bound (i + i) 31 eq_refl) as H2.
    pose proof (Z.mod_pos_bound ((i + i) mod 31 * Zpos n) 31 eq_refl) as H3.
    rewrite T_add, IH, T_add by assumption. f_equal.
    rewrite Z.add_mod_idemp_r by lia.
    rewrite (Z.add_mod i), Z.mul_mod_idemp_l, <- Z.add_mod by lia.
    rewrite (Pos2Z.inj_xI n). f_equal. ring.
  - pose proof (Z.mod_pos_bound (i + i) 31 eq_refl) as H2.
    rewrite T_add, IH by assumption. f_equal.
    rewrite Z.mul_mod_idemp_l by lia.
    rewrite (Pos2Z.inj_xO n). f_equal. ring.
  - f_equal. rewrite Z.mul_1_r, Z.mod_small; [reflexivity|exact Hi].
Qed.

Lemma scalar_mul_T (i k : Z) :
  0 <= i < 31 -> 0 <= k -> scalar_mul (T i) k = T ((i * k) mod 31).
Proof.
  intros Hi Hk. destruct k as [|n|n]; cbn [scalar_mul].
  - rewrite Z.mul_0_r. reflexivity.
  - apply iter_op_T, Hi.
  - lia.
Qed.

Lemma scalar_mul_Base (k : Z) : 0 <= k -> scalar_mul Base k = T (k mod 31).
Proof.
  intros Hk. rewrite <- T_1, scalar_mul_T by lia. f_equal. f_equal. lia.
Qed.

Lemma toy_base_group : base_group.
Proof.
  split.
  - intros a b Ha Hb. change (scalar_mul (scalar_mul Base a) b = scalar_mul Base (a * b)).
    rewrite !scalar_mul_Base, scalar_mul_T by (try apply Z.mod_pos_bound; nia).
    f_equal. rewrite Z.mul_mod_idemp_l by lia. reflexivity.
  - intros a b Ha Hb.
    change (point_add (scalar_mul Base a) (scalar_mul Base b) = scalar_mul Base (a + b)).
    rewrite !scalar_mul_Base, T_add by (try apply Z.mod_pos_bound; lia).
    f_equal. rewrite <- Z.add_mod by lia. reflexivity.
  - intros k Hk. change (scalar_mul Base (k mod 31) = scalar_mul Base k).
    pose proof (Z.mod_pos_bound k 31 eq_refl).
    rewrite !scalar_mul_Base by lia. f_equal. apply Z.mod_mod. lia.
Qed.

Lemma toy_Base_exact_order : Base_exact_order.
Proof.
  intros a b Ha Hb. change (scalar_mul Base a = scalar_mul Base b -> a = b).
  change Order with 31 in Ha, Hb.
  rewrite !scalar_mul_Base, !Z.mod_small by lia. apply T_inj; assumption.
Qed.

Lemma toy_Cofactor_nonneg : Cofactor_nonneg.
Proof. vm_compute. discriminate. Qed.

Lemma toy_Order_fits : Order_fits.
Proof. split; [reflexivity|vm_compute; discriminate]. Qed.

(** *** The hash objects and BLAKE2b *)

Lemma digest_hash_Reset : @Hash_Reset_initial digest_hash.
Proof. intros s s'. reflexivity. Qed.

Lemma constant_hash_Reset : @Hash_Reset_initial constant_hash.
Proof. intros s s'. reflexivity. Qed.

Lemma length_compress (h : list Z) (block : list byte) (t : Z) (final : bool) :
  length (Blake2b.compress h block t final) = length h.
Proof. unfold Blake2b.compress. apply length_imap. Qed.

Lemma length_absorb (h : list Z) (t : Z) (data : list byte) :
  length (Blake2b.absorb h t data) = length h.
Proof.
  funelim (Blake2b.absorb h t data).
  - apply length_compress.
  - match goal with IH : length _ = length _ |- _ => rewrite IH end.
    apply length_compress.
Qed.

Lemma length_concat_words (ws : list Z) :
  length (concat (map (fun w => reverse (be_bytes 8 w)) ws)) = (8 * length ws)%nat.
Proof.
  induction ws as [|w ws IH]; [reflexivity|].
  cbn [map concat length]. rewrite length_app, length_reverse, length_be_bytes, IH. lia.
Qed.

Lemma real_Sum512_length : Sum512_length.
Proof.
  intros data. change (length (Blake2b.Sum512 data) = 64%nat).
  unfold Blake2b.Sum512. rewrite length_concat_words, length_absorb. reflexivity.
Qed.

(** The digests of "abc" (RFC 7693, appendix A) and of the test seed. *)
Lemma Sum512_abc :
  Blake2b.Sum512 (bytes_of_string "abc") =
    be_bytes 64 0xba80a53f981c4d0d6a2797b69f12f6e94c212f14685ac4b74b12bb6fdbffa2d17d87c5392aab792dc252d5de4533cc9518d38aa8dbf1925ab92386edd4009923.
Proof. vm_compute. reflexivity. Qed.

Lemma Sum512_seed :
  Blake2b.Sum512 seed =
    be_bytes 64 0xda70d20cce9ea2801123af3fe80ba65d4b0d0b00bf821bc415703ca5bf18d7e0f3c5de614d130193f2ef3d7fe3a54f082c93739a21a15275681b9ebe67a03295.
Proof. vm_compute. reflexivity. Qed.

End ToyLaws.

(** ** Runs on the seed of the tests *)

Section Runs.
Import Toy ToyLaws.

(** C2. On the seed of the package's tests the scalar returned by [New]
    is the reversal of the pruned digest bytes 1..32, not of the bytes
    0..31: its first byte is digest byte 32 (0xf3, unpruned, also
    [randSrc[0]]) where the reversal of the pruned first half has 0x60,
    and the pruned byte 0 (0xd8) is absent from the scalar. *)
Theorem New_scalar_off_by_one :
  scalar keys.2 =
    be_bytes 32 0xf360d718bfa53c7015c41b82bf000b0d4b5da60be83faf231180a29ece0cd270 /\
  reversed_pruned_half seed =
    be_bytes 32 0x60d718bfa53c7015c41b82bf000b0d4b5da60be83faf231180a29ece0cd270d8 /\
  scalar keys.2 !! 0%nat = Sum512 seed !! 32%nat /\
  scalar keys.2 !! 0%nat = randSrc keys.2 !! 0%nat /\
  scalar keys.2 <> reversed_pruned_half seed.
Proof.
  assert (Hs : scalar keys.2 =
    be_bytes 32 0xf360d718bfa53c7015c41b82bf000b0d4b5da60be83faf231180a29ece0cd270)
    by (vm_compute; reflexivity).
  assert (Hc : reversed_pruned_half seed =
    be_bytes 32 0x60d718bfa53c7015c41b82bf000b0d4b5da60be83faf231180a29ece0cd270d8)
    by (vm_compute; reflexivity).
  split; [exact Hs|]. split; [exact Hc|].
  split; [vm_compute; reflexivity|]. split; [vm_compute; reflexivity|].
  rewrite Hs, Hc. vm_compute. discriminate.
Qed.

Lemma sign_then_verify_witness :
  (@Verify _ _ digest_hash signed.2.1 message keys.1 signed.1).2 = (true, None).
Proof.
  apply (@sign_then_verify toy_fr toy_curve real_blake2b digest_hash seed message
           [] signed.1 signed.1 signed.2.1
           toy_fr_Equal_spec toy_curve_closed toy_base_group toy_Cofactor_nonneg
           toy_Order_fits digest_hash_Reset).
  apply result_eta. vm_compute. reflexivity.
Defined.

Lemma Verify_equation_witness :
  (@Verify _ _ digest_hash signed.2.1 wrong_message keys.1 []).2 =
    (fr_Equal (X (lhs_point signed.2.1))
       (X (rhs_point signed.2.1 keys.1
             (@hramInt digest_hash (dataToHash (sig_R signed.2.1) (A keys.1) wrong_message))))
     && fr_Equal (Y (lhs_point signed.2.1))
       (Y (rhs_point signed.2.1 keys.1
             (@hramInt digest_hash (dataToHash (sig_R signed.2.1) (A keys.1) wrong_message)))),
     None).
Proof.
  destruct (@Verify_equation toy_fr toy_curve digest_hash signed.2.1 wrong_message keys.1
              [] (dataToHash (sig_R signed.2.1) (A keys.1) wrong_message)
              toy_curve_closed toy_Cofactor_nonneg toy_fr_Equal_spec) as (Hv & _ & _).
  - vm_compute. reflexivity.
  - vm_compute. reflexivity.
  - reflexivity.
  - exact Hv.
Defined.

Lemma Sign_response_witness :
  big_SetBytes (sig_S signed.2.1) = 18 /\ length (sig_S signed.2.1) = 32%nat /\
  sig_S signed.2.1 = make 31 ++ [Byte.x12].
Proof.
  destruct (@Sign_response toy_fr toy_curve real_blake2b digest_hash message keys.2
              [] signed.1 signed.2.1 toy_Order_fits) as (Hv & Hl & Hp).
  - apply result_eta. vm_compute. reflexivity.
  - rewrite Hv, Hl, Hp. vm_compute. repeat split.
Defined.

Lemma encode_decode_roundtrip_witness :
  (PublicKey_SetBytes zeroPublicKey (PublicKey_Bytes keys.1)).1 = keys.1 /\
  (PrivateKey_SetBytes zeroPrivateKey (PrivateKey_Bytes keys.2)).1 = keys.2 /\
  (Signature_SetBytes zeroSignature (Signature_Bytes signed.2.1)).1 = signed.2.1 /\
  (PublicKey_SetBytes zeroPublicKey (PublicKey_Bytes keys.1)).2.2 = None /\
  (PrivateKey_SetBytes zeroPrivateKey (PrivateKey_Bytes keys.2)).2.2 = None /\
  (Signature_SetBytes zeroSignature (Signature_Bytes signed.2.1)).2.2 = None.
Proof.
  apply (@encode_decode_roundtrip toy_fr toy_curve real_blake2b digest_hash seed message
           [] signed.1 signed.2.1 zeroPublicKey zeroPrivateKey zeroSignature
           toy_fr_codec toy_curve_closed real_Sum512_length).
  - reflexivity.
  - reflexivity.
  - reflexivity.
  - apply result_eta. vm_compute. reflexivity.
Defined.

Lemma SetBytes_short_buffer_witness :
  (PublicKey_SetBytes zeroPublicKey (take 63 (PublicKey_Bytes keys.1))).2.2
    = Some io_ErrShortBuffer /\
  (Signature_SetBytes zeroSignature (take 95 (Signature_Bytes signed.2.1))).2.2
    = Some io_ErrShortBuffer /\
  (PrivateKey_SetBytes zeroPrivateKey []).2.2 = Some io_ErrShortBuffer.
Proof.
  apply (@SetBytes_short_buffer toy_fr toy_curve).
  - vm_compute. lia.
  - vm_compute. lia.
  - simpl. lia.
Defined.

(** With a hash object whose digest does not depend on the message, the
    signature of "message" verifies against "wrong_message". *)
Lemma constant_hash_accepts_wrong_message :
  message <> wrong_message /\
  signed_constant.2.2 = None /\
  (@Verify _ _ constant_hash signed_constant.2.1 wrong_message keys.1 signed_constant.1).2
    = (true, None).
Proof.
  split; [vm_compute; discriminate|].
  split; vm_compute; reflexivity.
Qed.

Lemma verify_other_message_witness :
  (@Verify _ _ digest_hash signed.2.1 wrong_message keys.1 signed.1).2 = (false, None).
Proof.
  apply (@verify_other_message toy_fr toy_curve real_blake2b digest_hash seed
           message wrong_message [] signed.1 signed.1
           (dataToHash (sig_R signed.2.1) (A keys.1) wrong_message) signed.2.1
           toy_fr_Equal_spec toy_curve_closed toy_base_group toy_Base_exact_order
           toy_Cofactor_nonneg toy_Order_fits).
  - apply result_eta. vm_compute. reflexivity.
  - reflexivity.
  - vm_compute. discriminate.
Defined.

Lemma New_deterministic_witness :
  New seed = New (bytes_of_string "eddsa" ++ make 27) /\
  scalar (New seed).2 = scalar (New (bytes_of_string "eddsa" ++ make 27)).2.
Proof.
  destruct (@New_deterministic toy_fr toy_curve real_blake2b seed
              (bytes_of_string "eddsa" ++ make 27)) as (Hn & _ & _ & Hs & _).
  - reflexivity.
  - split; [exact Hn|exact Hs].
Defined.

(** Decoding 64 zero bytes into the public key of the test seed fails
    with [errNotOnCurve] and leaves the point (0, 0) in the receiver;
    decoding a short buffer leaves the receiver as it was. *)
Lemma SetBytes_receiver_on_error_witness :
  (PublicKey_SetBytes keys.1 (make 64)).2.2 = Some errNotOnCurve /\
  (PublicKey_SetBytes keys.1 (make 64)).1 = mkPublicKey (decoded_point (make 64)) /\
  (PublicKey_SetBytes keys.1 (make 64)).1 <> keys.1 /\
  (PublicKey_SetBytes keys.1 (make 63)).1 = keys.1.
Proof.
  destruct (@SetBytes_receiver_on_error toy_fr toy_curve keys.1 zeroSignature
              zeroPrivateKey (make 64)) as (_ & _ & _ & Hcurve & _).
  destruct (@SetBytes_receiver_on_error toy_fr toy_curve keys.1 zeroSignature
              zeroPrivateKey (make 63)) as (Hshort & _).
  assert (He : (PublicKey_SetBytes keys.1 (make 64)).2.2 = Some errNotOnCurve)
    by (vm_compute; reflexivity).
  split; [exact He|]. split; [exact (Hcurve He)|]. split.
  - rewrite (Hcurve He). intros Heq.
    apply (f_equal (fun pk : @PublicKey toy_fr => fe_val (X (A pk)))) in Heq. vm_compute in Heq. discriminate.
  - apply Hshort. vm_compute. reflexivity.
Defined.

Lemma SetBytes_count_witness :
  (PublicKey_SetBytes zeroPublicKey (PublicKey_Bytes keys.1)).2.1 = 64%nat /\
  (Signature_SetBytes zeroSignature (Signature_Bytes signed.2.1)).2.1 = 96%nat /\
  (PrivateKey_SetBytes zeroPrivateKey (PrivateKey_Bytes keys.2)).2.1 = 96%nat /\
  length (PrivateKey_Bytes keys.2) = 128%nat.
Proof.
  destruct (@SetBytes_count toy_fr toy_curve
              zeroPublicKey (PublicKey_SetBytes zeroPublicKey (PublicKey_Bytes keys.1)).1
              zeroSignature
              (Signature_SetBytes zeroSignature (Signature_Bytes signed.2.1)).1
              zeroPrivateKey
              (PrivateKey_SetBytes zeroPrivateKey (PrivateKey_Bytes keys.2)).1
              (PublicKey_Bytes keys.1) (Signature_Bytes signed.2.1) (PrivateKey_Bytes keys.2)
              (PublicKey_SetBytes zeroPublicKey (PublicKey_Bytes keys.1)).2.1
              (Signature_SetBytes zeroSignature (Signature_Bytes signed.2.1)).2.1
              (PrivateKey_SetBytes zeroPrivateKey (PrivateKey_Bytes keys.2)).2.1)
    as (H1 & H2 & H3 & _).
  - reflexivity.
  - reflexivity.
  - apply result_eta. vm_compute. reflexivity.
  - apply result_eta. vm_compute. reflexivity.
  - apply result_eta. vm_compute. reflexivity.
  - rewrite H1, H2, H3.
    split; [reflexivity|split; [reflexivity|split; [reflexivity|vm_compute; reflexivity]]].
Defined.

End Runs.

(** ** Further runs on the seed of the tests *)

Section FurtherRuns.
Import Toy ToyLaws.

Lemma result_eta_err {S1 V E : Type} (r : S1 * (V * option E)) (e : E) :
  r.2.2 = Some e -> r = (r.1, (r.2.1, Some e)).
Proof. destruct r as [s [v e']]. cbn. intros ->. reflexivity. Qed.

Lemma Bytes_layout_witness :
  length (PublicKey_Bytes keys.1) = 64%nat /\
  length (Signature_Bytes signed.2.1) = 96%nat /\
  length (PrivateKey_Bytes keys.2) = 128%nat.
Proof.
  destruct (@Bytes_layout toy_fr keys.1 signed.2.1 keys.2) as (Hl & _).
  - exact (fr_Bytes_length toy_fr_codec).
  - vm_compute. reflexivity.
  - vm_compute. reflexivity.
  - vm_compute. reflexivity.
  - exact Hl.
Defined.

Lemma SetBytes_success_witness :
  IsOnCurve (A (PublicKey_SetBytes zeroPublicKey (PublicKey_Bytes keys.1)).1) = true /\
  sig_S (Signature_SetBytes zeroSignature (Signature_Bytes signed.2.1)).1
    = slice 64 96 (Signature_Bytes signed.2.1).
Proof.
  destruct (@SetBytes_success toy_fr toy_curve
              zeroPublicKey (PublicKey_SetBytes zeroPublicKey (PublicKey_Bytes keys.1)).1
              zeroSignature
              (Signature_SetBytes zeroSignature (Signature_Bytes signed.2.1)).1
              zeroPrivateKey
              (PrivateKey_SetBytes zeroPrivateKey (PrivateKey_Bytes keys.2)).1
              (PublicKey_Bytes keys.1) (Signature_Bytes signed.2.1) (PrivateKey_Bytes keys.2)
              (PublicKey_SetBytes zeroPublicKey (PublicKey_Bytes keys.1)).2.1
              (Signature_SetBytes zeroSignature (Signature_Bytes signed.2.1)).2.1
              (PrivateKey_SetBytes zeroPrivateKey (PrivateKey_Bytes keys.2)).2.1)
    as ((_ & H1) & (_ & _ & H2) & _).
  - reflexivity.
  - apply result_eta. vm_compute. reflexivity.
  - apply result_eta. vm_compute. reflexivity.
  - apply result_eta. vm_compute. reflexivity.
  - split; [exact H1|exact H2].
Defined.

Lemma SetBytes_ignores_trailing_bytes_witness :
  PublicKey_SetBytes zeroPublicKey (PublicKey_Bytes keys.1 ++ message)
    = PublicKey_SetBytes zeroPublicKey (PublicKey_Bytes keys.1) /\
  Signature_SetBytes zeroSignature (Signature_Bytes signed.2.1 ++ wrong_message)
    = Signature_SetBytes zeroSignature (Signature_Bytes signed.2.1) /\
  PrivateKey_SetBytes zeroPrivateKey (PrivateKey_Bytes keys.2 ++ seed)
    = PrivateKey_SetBytes zeroPrivateKey (PrivateKey_Bytes keys.2).
Proof.
  apply (@SetBytes_ignores_trailing_bytes toy_fr toy_curve).
  - reflexivity.
  - vm_compute. lia.
  - vm_compute. lia.
  - vm_compute. lia.
Defined.

Lemma SetBytes_count_as_offset_witness :
  drop (PublicKey_SetBytes zeroPublicKey (PublicKey_Bytes keys.1 ++ message)).2.1
    (PublicKey_Bytes keys.1 ++ message) = message /\
  drop (PrivateKey_SetBytes zeroPrivateKey (PrivateKey_Bytes keys.2 ++ message)).2.1
    (PrivateKey_Bytes keys.2 ++ message) = randSrc keys.2 ++ message.
Proof.
  destruct (@SetBytes_count_as_offset toy_fr toy_curve zeroPublicKey keys.1
              zeroSignature signed.2.1 zeroPrivateKey keys.2 message toy_fr_codec)
    as ((_ & H1) & _ & (_ & H3)).
  - vm_compute. reflexivity.
  - vm_compute. reflexivity.
  - vm_compute. reflexivity.
  - reflexivity.
  - vm_compute. reflexivity.
  - reflexivity.
  - reflexivity.
  - vm_compute. reflexivity.
  - vm_compute. reflexivity.
  - split; [exact H1|exact H3].
Defined.

Lemma nonce_input_witness :
  nonce message keys.2 = big_SetBytes (take 32 (Sum512 (randSrc keys.2 ++ message))).
Proof.
  apply (@nonce_input toy_fr real_blake2b message keys.2).
  vm_compute. reflexivity.
Defined.

Lemma dataToHash_layout_witness :
  length (dataToHash (sig_R signed.2.1) (A keys.1) message) = (128 + 7)%nat.
Proof.
  destruct (@dataToHash_layout toy_fr (sig_R signed.2.1) (A keys.1) message) as [_ Hl].
  - exact (fr_Bytes_length toy_fr_codec).
  - exact Hl.
Defined.

Lemma Sign_failure_witness :
  (@Sign _ _ _ failing_hash message keys.2 tt).2.1 = zeroSignature.
Proof.
  destruct (@Sign_failure toy_fr toy_curve real_blake2b failing_hash message keys.2 tt
              (@Sign _ _ _ failing_hash message keys.2 tt).1
              (@Sign _ _ _ failing_hash message keys.2 tt).2.1
              (errWrite "write failed")) as [Hz _].
  - apply result_eta_err. vm_compute. reflexivity.
  - exact Hz.
Defined.

Lemma Verify_failure_witness :
  (@Verify _ _ failing_hash signed.2.1 message keys.1 tt).2.1 = false.
Proof.
  destruct (@Verify_failure toy_fr toy_curve failing_hash signed.2.1 message keys.1 tt
              (@Verify _ _ failing_hash signed.2.1 message keys.1 tt).1
              (@Verify _ _ failing_hash signed.2.1 message keys.1 tt).2.1
              (errWrite "write failed")) as [Hb _].
  - apply result_eta_err. vm_compute. reflexivity.
  - exact Hb.
Defined.

Lemma Verify_errors_witness :
  @Verify _ _ digest_hash signed.2.1 message zeroPublicKey signed.1
    = (signed.1, (false, Some errNotOnCurve)).
Proof.
  destruct (@Verify_errors toy_fr toy_curve digest_hash signed.2.1 message zeroPublicKey
              signed.1 toy_curve_closed toy_Cofactor_nonneg) as [Hoff _].
  - vm_compute. reflexivity.
  - apply Hoff. vm_compute. reflexivity.
Defined.

Lemma Sign_success_witness :
  IsOnCurve (sig_R signed.2.1) = true /\ 0 <= big_SetBytes (sig_S signed.2.1) < 31.
Proof.
  destruct (@Sign_success toy_fr toy_curve real_blake2b digest_hash message keys.2
              [] signed.1 signed.2.1 toy_Order_fits) as (_ & Hon & _ & Hlt).
  - apply result_eta. vm_compute. reflexivity.
  - split; [exact Hon|exact Hlt].
Defined.

Lemma hash_state_is_reset_witness :
  (@Sign _ _ _ digest_hash message keys.2 []).2
    = (@Sign _ _ _ digest_hash message keys.2 signed.1).2 /\
  (@Verify _ _ digest_hash signed.2.1 message keys.1 []).2
    = (@Verify _ _ digest_hash signed.2.1 message keys.1 signed.1).2.
Proof.
  exact (@hash_state_is_reset toy_fr toy_curve real_blake2b digest_hash message keys.2
           signed.2.1 keys.1 [] signed.1 digest_hash_Reset).
Defined.

Lemma Verify_S_modulo_Order_witness :
  @Verify _ _ digest_hash (mkSignature (sig_R signed.2.1) (be_bytes 32 18))
      message keys.1 []
    = @Verify _ _ digest_hash (mkSignature (sig_R signed.2.1) (be_bytes 32 (18 + 31)))
        message keys.1 [] /\
  (@Verify _ _ digest_hash (mkSignature (sig_R signed.2.1) (be_bytes 32 (18 + 31)))
     message keys.1 []).2 = (true, None).
Proof.
  split.
  - apply (@Verify_S_modulo_Order toy_fr toy_curve digest_hash (sig_R signed.2.1)
             (be_bytes 32 18) (be_bytes 32 (18 + 31)) message keys.1 [] toy_base_group).
    vm_compute. reflexivity.
  - vm_compute. reflexivity.
Defined.

Lemma Verify_accepts_signing_equation_witness :
  (@Verify _ _ digest_hash
     (mkSignature (ScalarMul Base 5)
        (S_bytes (big_Mod
           (@hramInt digest_hash (dataToHash (ScalarMul Base 5) (A keys.1) message)
              * big_SetBytes (scalar keys.2) + 5) Order)))
     message keys.1 []).2 = (true, None).
Proof.
  refine (f_equal snd
            (@Verify_accepts_signing_equation toy_fr toy_curve digest_hash 5
               (big_SetBytes (scalar keys.2)) message keys.1 []
               (dataToHash (ScalarMul Base 5) (A keys.1) message)
               toy_fr_Equal_spec toy_curve_closed toy_base_group toy_Cofactor_nonneg
               toy_Order_fits _ _ _ _)).
  - lia.
  - apply big_SetBytes_nonneg.
  - exact (f_equal A (proj1 (New_pubKey seed))).
  - reflexivity.
Defined.

Lemma New_key_pair_witness :
  pubKey keys.2 = keys.1 /\ IsOnCurve (A keys.1) = true /\
  randSrc keys.2 = slice 32 64 (Sum512 seed).
Proof.
  destruct (@New_key_pair toy_fr toy_curve real_blake2b seed real_Sum512_length
              toy_curve_closed) as (H1 & _ & H3 & _ & _ & H6).
  split; [exact H1|]. split; [exact H3|exact H6].
Defined.

Lemma Verify_after_Marshal_witness :
  (@Verify _ _ digest_hash
     (Signature_Unmarshal zeroSignature (Signature_Marshal signed.2.1)).1 message
     (PublicKey_Unmarshal zeroPublicKey (PublicKey_Marshal keys.1)).1 signed.1).2
    = (true, None).
Proof.
  destruct (@Verify_after_Marshal toy_fr toy_curve real_blake2b digest_hash seed message
              [] signed.1 signed.1 signed.2.1 zeroSignature zeroPublicKey
              toy_fr_codec toy_fr_Equal_spec toy_curve_closed toy_base_group
              toy_Cofactor_nonneg toy_Order_fits digest_hash_Reset) as (_ & _ & Hv).
  - reflexivity.
  - apply result_eta. vm_compute. reflexivity.
  - exact Hv.
Defined.

Lemma Verify_rejects_other_S_witness :
  (@Verify _ _ digest_hash (mkSignature (sig_R signed.2.1) (be_bytes 32 19))
     message keys.1 signed.1).2 = (false, None).
Proof.
  apply (@Verify_rejects_other_S toy_fr toy_curve real_blake2b digest_hash seed message
           (be_bytes 32 19) [] signed.1 signed.1 signed.2.1
           toy_fr_Equal_spec toy_curve_closed toy_base_group toy_Base_exact_order
           toy_Cofactor_nonneg toy_Order_fits digest_hash_Reset).
  - apply result_eta. vm_compute. reflexivity.
  - vm_compute. discriminate.
Defined.

End FurtherRuns.
